(** * The ev3dev speaker and the battery module of pybricks-micropython

    A shallow embedding of [bricks/ev3dev/pb_type_ev3dev_speaker.c] and of
    [extmod/modbattery.c].  The C functions become functions of a monad
    that threads the state of the speaker singleton, of the sound device
    and of the scheduler, and that records what the code does to them.
    A C [double] is a binary64 float of the kernel.  A C [int] is an
    integer of [Z]: on arguments in the range of [mp_int_t] no
    computation of these files leaves the range of 32 bits.  A C string
    is a [string] read by index, with its terminating NUL; a byte is its
    code from 0 to 255, and no test of these files tells a signed [char]
    from an unsigned one. *)

From Stdlib Require Import ZArith List String Ascii Bool Lia Permutation.
From Stdlib Require Import PrimFloat FloatOps SpecFloat Uint63.
From ExtLib Require Import Structures.Monad Structures.MonadExc.
Import ListNotations.
Import MonadNotation.

Set Warnings "-inexact-float,-register-all".

Local Open Scope Z_scope.
Local Open Scope monad_scope.

(** ** The MicroPython runtime, as far as these files use it *)

(** Objects that reach the functions of these files. *)
Inductive mp_obj : Type :=
| mp_const_none
| mp_obj_new_bool (b : bool)
| mp_obj_new_int (z : Z)
| mp_obj_new_str (s : string)
| mp_obj_new_list (items : list mp_obj)
| pb_type_ev3dev_Speaker.

(** Exceptions that travel through [nlr_jump]. *)
Inductive exc : Type :=
| ValueError (msg : string)
| TypeError
| OSError (errno : Z)
| RuntimeError (msg : string)
| KeyboardInterrupt
| SystemExit.

(** Behaviour that C leaves undefined and that these files can reach. *)
Inductive undefined_behaviour : Type :=
| DivisionByZero
| BufferOverrun
| NullDereference.

(** How a call ends: it returns, it unwinds with an exception, it runs
    into undefined behaviour, or the scheduler never hands control back
    (the script of the scheduler, below, is exhausted). *)
Inductive outcome (A : Type) : Type :=
| Normal (a : A)
| Raised (e : exc)
| Undefined (u : undefined_behaviour)
| Waiting.

Arguments Normal {A} a.
Arguments Raised {A} e.
Arguments Undefined {A} u.
Arguments Waiting {A}.

#[export] Instance Monad_outcome : Monad outcome :=
  {| ret := fun A (a : A) => Normal a;
     bind := fun A B (c : outcome A) (k : A -> outcome B) =>
       match c with
       | Normal a => k a
       | Raised e => Raised e
       | Undefined u => Undefined u
       | Waiting => Waiting
       end |}.

(** ** The speaker object, the devices and the scheduler *)

Inductive subprocess : Type := Aplay | Espeak.

(** [struct _ev3dev_Speaker_obj_t]; a [GError *] is the message it
    carries, [None] for [NULL]. *)
Record ev3dev_Speaker_obj_t : Type := mk_speaker {
  intialized : bool;
  beep_fd : Z;
  aplay_busy : bool;
  aplay_result : bool;
  aplay_error : option string;
  espeak_busy : bool;
  espeak_result : bool;
  espeak_error : option string;
  splice_busy : bool;
  splice_result : Z;
  splice_error : option string
}.

Definition set_intialized (b : bool) (s : ev3dev_Speaker_obj_t) :=
  mk_speaker b (beep_fd s) (aplay_busy s) (aplay_result s) (aplay_error s)
    (espeak_busy s) (espeak_result s) (espeak_error s)
    (splice_busy s) (splice_result s) (splice_error s).

Definition set_beep_fd (fd : Z) (s : ev3dev_Speaker_obj_t) :=
  mk_speaker (intialized s) fd (aplay_busy s) (aplay_result s) (aplay_error s)
    (espeak_busy s) (espeak_result s) (espeak_error s)
    (splice_busy s) (splice_result s) (splice_error s).

Definition set_aplay (busy result : bool) (error : option string)
    (s : ev3dev_Speaker_obj_t) :=
  mk_speaker (intialized s) (beep_fd s) busy result error
    (espeak_busy s) (espeak_result s) (espeak_error s)
    (splice_busy s) (splice_result s) (splice_error s).

Definition set_espeak (busy result : bool) (error : option string)
    (s : ev3dev_Speaker_obj_t) :=
  mk_speaker (intialized s) (beep_fd s)
    (aplay_busy s) (aplay_result s) (aplay_error s) busy result error
    (splice_busy s) (splice_result s) (splice_error s).

Definition set_splice (busy : bool) (result : Z) (error : option string)
    (s : ev3dev_Speaker_obj_t) :=
  mk_speaker (intialized s) (beep_fd s)
    (aplay_busy s) (aplay_result s) (aplay_error s)
    (espeak_busy s) (espeak_result s) (espeak_error s) busy result error.

(** What the code does to the world outside, in the order it does it. *)
Inductive event : Type :=
| EvOpen (ret : Z)
| EvPerror (msg : string)
| EvWrite (fd value ret : Z)
| EvDelay (ms : Z)
| EvSpawn (p : subprocess) (argv : list string)
| EvPoll
| EvWaitCheck (p : subprocess)
| EvSplice
| EvForceExit (p : subprocess)
| EvUnref (p : subprocess).

(** Result of one [write(2)] on an open descriptor. *)
Inductive write_result : Type :=
| WriteOk
| WriteError (errno : Z).

(** Completions the GLib main loop hands to the callbacks of the file.
    A finished wait carries [None] when [g_subprocess_wait_check_finish]
    returns TRUE and the message of its [GError] when it returns FALSE. *)
Inductive completion : Type :=
| AplayExited (error : option string)
| EspeakExited (error : option string)
| SpliceFinished (bytes : Z) (error : option string).

(** One run of [MICROPY_EVENT_POLL_HOOK]: the completions it dispatches
    and the exception it unwinds with, if any. *)
Record poll_step : Type := mk_poll {
  dispatched : list completion;
  pending_exception : option exc
}.

(** The state the code runs in.  The [env_] fields are the part of the
    environment the code cannot see in advance: what [open] returns, how
    the coming [write]s on an open descriptor end, which of the coming
    delays are interrupted, whether a spawn fails, what the coming runs
    of the poll hook do, and what a process has written to its stderr
    pipe (with the result of [g_input_stream_read_all]). *)
Record world : Type := mk_world {
  self : ev3dev_Speaker_obj_t;
  errno : Z;
  tone : Z;
  trace : list event;
  env_open : Z * Z;
  env_writes : list write_result;
  env_delays : list (option exc);
  env_spawn : subprocess -> option string;
  env_polls : list poll_step;
  env_stderr : subprocess -> bool * list ascii
}.

Definition with_self (s : ev3dev_Speaker_obj_t) (w : world) : world :=
  mk_world s (errno w) (tone w) (trace w) (env_open w) (env_writes w)
    (env_delays w) (env_spawn w) (env_polls w) (env_stderr w).

Definition with_errno (e : Z) (w : world) : world :=
  mk_world (self w) e (tone w) (trace w) (env_open w) (env_writes w)
    (env_delays w) (env_spawn w) (env_polls w) (env_stderr w).

Definition with_tone (f : Z) (w : world) : world :=
  mk_world (self w) (errno w) f (trace w) (env_open w) (env_writes w)
    (env_delays w) (env_spawn w) (env_polls w) (env_stderr w).

Definition log (ev : event) (w : world) : world :=
  mk_world (self w) (errno w) (tone w) (trace w ++ [ev]) (env_open w)
    (env_writes w) (env_delays w) (env_spawn w) (env_polls w) (env_stderr w).

Definition with_writes (l : list write_result) (w : world) : world :=
  mk_world (self w) (errno w) (tone w) (trace w) (env_open w) l
    (env_delays w) (env_spawn w) (env_polls w) (env_stderr w).

Definition with_delays (l : list (option exc)) (w : world) : world :=
  mk_world (self w) (errno w) (tone w) (trace w) (env_open w) (env_writes w)
    l (env_spawn w) (env_polls w) (env_stderr w).

Definition with_polls (l : list poll_step) (w : world) : world :=
  mk_world (self w) (errno w) (tone w) (trace w) (env_open w) (env_writes w)
    (env_delays w) (env_spawn w) l (env_stderr w).

(** The monad of the C functions: the world goes in, an outcome and the
    world come out; the world survives an exception. *)
Definition M (A : Type) : Type := world -> outcome A * world.

#[export] Instance Monad_M : Monad M :=
  {| ret := fun A (a : A) (w : world) => (Normal a, w);
     bind := fun A B (c : M A) (k : A -> M B) (w : world) =>
       match c w with
       | (Normal a, w') => k a w'
       | (Raised e, w') => (Raised e, w')
       | (Undefined u, w') => (Undefined u, w')
       | (Waiting, w') => (Waiting, w')
       end |}.

(** [nlr_jump] raises; [nlr_push] with its two branches is [catch]. *)
#[export] Instance MonadExc_M : MonadExc exc M :=
  {| raise := fun A (e : exc) (w : world) => (Raised e, w);
     catch := fun A (body : M A) (handler : exc -> M A) (w : world) =>
       match body w with
       | (Raised e, w') => handler e w'
       | r => r
       end |}.

Definition nlr_jump {A : Type} (e : exc) : M A := raise e.

Definition lift {A : Type} (c : outcome A) : M A := fun w => (c, w).
Definition get_world : M world := fun w => (Normal w, w).
Definition modify_world (f : world -> world) : M unit :=
  fun w => (Normal tt, f w).
Definition get_self : M ev3dev_Speaker_obj_t := fun w => (Normal (self w), w).

Definition mp_raise_ValueError {A : Type} (msg : string) : outcome A :=
  Raised (ValueError msg).

Definition mp_raise_OSError {A : Type} (e : Z) : M A := nlr_jump (OSError e).

(** [mp_obj_str_get_str]: a str gives its bytes, anything else raises. *)
Definition mp_obj_str_get_str (o : mp_obj) : outcome string :=
  match o with
  | mp_obj_new_str s => Normal s
  | _ => Raised TypeError
  end.

(** [mp_getiter] followed by [mp_iternext] until [MP_OBJ_STOP_ITERATION]:
    a list yields its items, a str its characters, anything else is not
    iterable.  (An iterator that raises while it is consumed is not
    modelled.) *)
Definition mp_getiter (o : mp_obj) : M (list mp_obj) :=
  match o with
  | mp_obj_new_list items => ret items
  | mp_obj_new_str s =>
      ret (map (fun c => mp_obj_new_str (String c EmptyString))
               (list_ascii_of_string s))
  | _ => nlr_jump TypeError
  end.

(** ** The sound device *)

Definition EINTR : Z := 4.
Definition EBADF : Z := 9.

(** [open(EV3DEV_EV3_INPUT_DEV_PATH, O_RDWR, 0)]: the environment says
    what it returns and which [errno] it leaves on failure. *)
Definition sys_open : M Z :=
  fun w =>
    let '(fd, e) := env_open w in
    let w := log (EvOpen fd) w in
    (Normal fd, if fd =? -1 then with_errno e w else w).

Definition perror (msg : string) : M unit := modify_world (log (EvPerror msg)).

(** One [write(2)] of the event [{EV_SND, SND_TONE, value}].  A negative
    descriptor is not open: the call fails with [EBADF].  On an open
    descriptor the environment decides (success once its script is
    used up); a write that succeeds returns the 16 bytes of the event
    and sets the tone of the device. *)
Definition sys_write (fd value : Z) : M Z :=
  fun w =>
    if fd <? 0 then
      (Normal (-1), with_errno EBADF (log (EvWrite fd value (-1)) w))
    else
      match env_writes w with
      | WriteError e :: rest =>
          (Normal (-1),
           with_errno e (with_writes rest (log (EvWrite fd value (-1)) w)))
      | WriteOk :: rest =>
          (Normal 16, with_tone value (with_writes rest (log (EvWrite fd value 16) w)))
      | [] =>
          (Normal 16, with_tone value (log (EvWrite fd value 16) w))
      end.

(** The loop [do { ret = write(...); } while (ret == -1 && errno == EINTR)]
    with [n] retries left. *)
Fixpoint write_retry (n : nat) (fd freq : Z) : M Z :=
  r <- sys_write fd freq ;;
  w <- get_world ;;
  match n with
  | S n' =>
      if (r =? -1) && (errno w =? EINTR) then write_retry n' fd freq
      else ret r
  | O => ret r
  end.

(** [set_beep_frequency].  Every failed attempt uses up one entry of the
    script of the environment, so its length bounds the retries. *)
Definition set_beep_frequency (freq : Z) : M Z :=
  w <- get_world ;;
  write_retry (List.length (env_writes w)) (beep_fd (self w)) freq.

(** Modelled from the spec: [mp_hal_delay_ms] is a function of the port
    that is not in these files.  It suspends the caller in the
    scheduler: the delay runs to its end, or an exception that was
    pending in the scheduler unwinds out of it. *)
Definition mp_hal_delay_ms (ms : Z) : M unit :=
  fun w =>
    let w1 := log (EvDelay ms) w in
    match env_delays w with
    | Some e :: rest => (Raised e, with_delays rest w1)
    | None :: rest => (Normal tt, with_delays rest w1)
    | [] => (Normal tt, w1)
    end.

(** [ev3dev_Speaker_make_new] *)
Definition ev3dev_Speaker_make_new : M mp_obj :=
  s <- get_self ;;
  (if negb (intialized s) then
     fd <- sys_open ;;
     modify_world (fun w => with_self (set_beep_fd fd (self w)) w) ;;
     (if fd =? -1 then
        perror "Failed to open input dev for sound, beep will not work"
      else ret tt) ;;
     modify_world (fun w => with_self (set_intialized true (self w)) w)
   else ret tt) ;;
  ret pb_type_ev3dev_Speaker.

(** [ev3dev_Speaker_beep], after [PB_PARSE_ARGS_METHOD] and
    [pb_obj_get_int] have turned the arguments into integers. *)
Definition ev3dev_Speaker_beep (frequency duration : Z) : M mp_obj :=
  let freq := frequency in
  let ms := duration in
  r <- set_beep_frequency freq ;;
  (if r =? -1 then
     w <- get_world ;; mp_raise_OSError (errno w)
   else ret tt) ;;
  if ms <? 0 then ret mp_const_none
  else
    catch
      (mp_hal_delay_ms ms ;;
       set_beep_frequency 0 ;;
       ret tt)
      (fun e =>
         set_beep_frequency 0 ;;
         nlr_jump e) ;;
    ret mp_const_none.

(** ** Notes *)

Definition chr (c : ascii) : Z := Z.of_N (N_of_ascii c).

(** [note[pos]]: the byte at [pos]; past the last one, the NUL that ends
    the string. *)
Definition note_at (note : string) (pos : nat) : Z :=
  match String.get pos note with
  | Some c => chr c
  | None => 0
  end.

(** Conversions between [int] and [double]: an [int] that is not
    negative to the float of the same value, a finite [double] to the
    integer next to it towards zero. *)
Definition double_of_int (z : Z) : float := PrimFloat.of_uint63 (Uint63.of_Z z).

Definition int_of_double (f : float) : Z :=
  match Prim2SF f with
  | S754_finite s m e =>
      let v := if 0 <=? e then Z.pos m * 2 ^ e else Z.pos m / 2 ^ (- e) in
      if s then - v else v
  | _ => 0
  end.

(** C division of [int]s: towards zero, undefined for a zero divisor. *)
Definition c_div (a b : Z) : outcome Z :=
  if b =? 0 then Undefined DivisionByZero else Normal (Z.quot a b).

(** The inner [switch (note[pos++])] on the accidental. *)
Definition switch_accidental (note : string) (pos : nat)
    (flat sharp : outcome float) (natural : float) : outcome (float * nat) :=
  let c := note_at note pos in
  let pos := S pos in
  if c =? chr "b" then f <- flat ;; ret (f, pos)
  else if c =? chr "#" then f <- sharp ;; ret (f, pos)
  else ret (natural, Nat.pred pos).

(** The outer [switch (note[pos++])]: A-G with its accidental, or R. *)
Definition note_name (note : string) (pos : nat) : outcome (float * nat) :=
  let c := note_at note pos in
  let pos := S pos in
  if c =? chr "C" then
    switch_accidental note pos
      (mp_raise_ValueError "'Cb' is not allowed") (ret 17.32%float) 16.35%float
  else if c =? chr "D" then
    switch_accidental note pos (ret 17.32%float) (ret 19.45%float) 18.35%float
  else if c =? chr "E" then
    switch_accidental note pos
      (ret 19.45%float) (mp_raise_ValueError "'E#' is not allowed") 20.60%float
  else if c =? chr "F" then
    switch_accidental note pos
      (mp_raise_ValueError "'Fb' is not allowed") (ret 23.12%float) 21.83%float
  else if c =? chr "G" then
    switch_accidental note pos (ret 23.12%float) (ret 25.96%float) 24.50%float
  else if c =? chr "A" then
    switch_accidental note pos (ret 25.96%float) (ret 29.14%float) 27.50%float
  else if c =? chr "B" then
    switch_accidental note pos
      (ret 29.14%float) (mp_raise_ValueError "'B#' is not allowed") 30.87%float
  else if c =? chr "R" then ret (0%float, pos)
  else mp_raise_ValueError "Missing note name A-G or R".

(** The octave number, for a note that is not a rest:
    [freq *= 2 << octave]. *)
Definition note_octave (note : string) (freq : float) (pos : nat)
    : outcome (float * nat) :=
  if negb (PrimFloat.eqb freq 0%float) then
    let octave := note_at note pos - chr "0" in
    let pos := S pos in
    (if (octave <? 2) || (octave >? 8)
     then mp_raise_ValueError "Missing octave number 2-8"
     else ret tt) ;;
    ret (PrimFloat.mul freq (double_of_int (Z.shiftl 2 octave)), pos)
  else ret (freq, pos).

(** The delimiter between octave and fraction. *)
Definition note_delimiter (note : string) (pos : nat) : outcome nat :=
  let c := note_at note pos in
  let pos := S pos in
  if negb (c =? chr "/") then mp_raise_ValueError "Missing '/'"
  else ret pos.

(** The fraction: one digit and an optional second one. *)
Definition note_fraction (note : string) (pos : nat) : outcome (Z * nat) :=
  let fraction := note_at note pos - chr "0" in
  let pos := S pos in
  (if (fraction <? 0) || (fraction >? 9)
   then mp_raise_ValueError "Missing fractional value 1, 2, 4, 8, etc."
   else ret tt) ;;
  let fraction2 := note_at note pos - chr "0" in
  let pos := S pos in
  if (fraction2 <? 0) || (fraction2 >? 9) then ret (fraction, Nat.pred pos)
  else ret (fraction * 10 + fraction2, pos).

(** The optional decorations: a dot, then a tie. *)
Definition note_decorations (note : string) (duration : Z) (pos : nat)
    : outcome (Z * bool) :=
  let c := note_at note pos in
  let pos := S pos in
  let '(duration, pos) :=
    if c =? chr "." then (Z.quot (3 * duration) 2, pos)
    else (duration, Nat.pred pos) in
  let c := note_at note pos in
  let pos := S pos in
  let '(release, pos) :=
    if c =? chr "_" then (false, pos) else (true, Nat.pred pos) in
  ret (duration, release).

(** The first part of [ev3dev_Speaker_play_note], up to the first write
    to the device: it reads the note and touches nothing else.  The
    result is the frequency, the duration of the note and whether it is
    released. *)
Definition parse_note (note : string) (duration : Z)
    : outcome (float * Z * bool) :=
  let pos := 0%nat in
  '(freq, pos) <- note_name note pos ;;
  '(freq, pos) <- note_octave note freq pos ;;
  pos <- note_delimiter note pos ;;
  '(fraction, pos) <- note_fraction note pos ;;
  duration <- c_div duration fraction ;;
  '(duration, release) <- note_decorations note duration pos ;;
  ret (freq, duration, release).

(** [ev3dev_Speaker_play_note].  The delays are recorded with the [int]
    the code computes. *)
Definition ev3dev_Speaker_play_note (obj : mp_obj) (duration : Z) : M unit :=
  note <- lift (mp_obj_str_get_str obj) ;;
  '(freq, duration, release) <- lift (parse_note note duration) ;;
  set_beep_frequency (int_of_double freq) ;;
  if release : bool then
    mp_hal_delay_ms (Z.quot (7 * duration) 8) ;;
    set_beep_frequency 0 ;;
    mp_hal_delay_ms (Z.quot duration 8)
  else
    mp_hal_delay_ms duration.

(** The [while] loop of [ev3dev_Speaker_play_notes] over the items the
    iterator yields. *)
Fixpoint play_each (items : list mp_obj) (duration : Z) : M unit :=
  match items with
  | [] => ret tt
  | item :: rest =>
      ev3dev_Speaker_play_note item duration ;;
      play_each rest duration
  end.

(** [ev3dev_Speaker_play_notes], after the arguments are bound. *)
Definition ev3dev_Speaker_play_notes (notes : mp_obj) (tempo : Z) : M mp_obj :=
  duration <- lift (c_div (4 * 60 * 1000) tempo) ;;
  iterable <- mp_getiter notes ;;
  catch
    (play_each iterable duration ;;
     set_beep_frequency 0 ;;
     ret tt)
    (fun e =>
       set_beep_frequency 0 ;;
       nlr_jump e) ;;
  ret mp_const_none.

(** The speaker singleton before its construction. *)
Definition no_speaker : ev3dev_Speaker_obj_t :=
  mk_speaker false 0 false false None false false None false 0 None.

(** The outcome of a call and the trace it leaves. *)
Definition run {A : Type} (c : M A) (w : world) : outcome A * list event :=
  let '(r, w') := c w in (r, trace w').

(** ** Helper processes *)

(** [g_subprocess_new]: the process, or the message of the error. *)
Definition g_subprocess_new (p : subprocess) (argv : list string)
    : M (string + subprocess) :=
  fun w =>
    match env_spawn w p with
    | Some message => (Normal (inl message), w)
    | None => (Normal (inr p), log (EvSpawn p argv) w)
    end.

Definition g_subprocess_wait_check_async (p : subprocess) : M unit :=
  modify_world (log (EvWaitCheck p)).
Definition g_output_stream_splice_async : M unit := modify_world (log EvSplice).
Definition g_subprocess_force_exit (p : subprocess) : M unit :=
  modify_world (log (EvForceExit p)).
Definition g_object_unref (p : subprocess) : M unit :=
  modify_world (log (EvUnref p)).

Definition is_none {A : Type} (o : option A) : bool :=
  match o with None => true | Some _ => false end.

(** The three callbacks: clear the old error, store the result of the
    finish function with its error, drop the busy flag. *)
Definition ev3dev_Speaker_aplay_callback (res : option string)
    (s : ev3dev_Speaker_obj_t) : ev3dev_Speaker_obj_t :=
  let s := set_aplay (aplay_busy s) (aplay_result s) None s in
  let s := set_aplay (aplay_busy s) (is_none res) res s in
  set_aplay false (aplay_result s) (aplay_error s) s.

Definition ev3dev_Speaker_espeak_callback (res : option string)
    (s : ev3dev_Speaker_obj_t) : ev3dev_Speaker_obj_t :=
  let s := set_espeak (espeak_busy s) (espeak_result s) None s in
  let s := set_espeak (espeak_busy s) (is_none res) res s in
  set_espeak false (espeak_result s) (espeak_error s) s.

Definition ev3dev_Speaker_splice_callback (bytes : Z) (res : option string)
    (s : ev3dev_Speaker_obj_t) : ev3dev_Speaker_obj_t :=
  let s := set_splice (splice_busy s) (splice_result s) None s in
  let s := set_splice (splice_busy s) bytes res s in
  set_splice false (splice_result s) (splice_error s) s.

Definition dispatch (s : ev3dev_Speaker_obj_t) (c : completion)
    : ev3dev_Speaker_obj_t :=
  match c with
  | AplayExited res => ev3dev_Speaker_aplay_callback res s
  | EspeakExited res => ev3dev_Speaker_espeak_callback res s
  | SpliceFinished bytes res => ev3dev_Speaker_splice_callback bytes res s
  end.

(** Modelled from the spec: [MICROPY_EVENT_POLL_HOOK] is a macro of the
    port that is not in these files.  One run of it yields to the
    scheduler once: the main loop dispatches the completions that are
    due, on the thread of the caller, and an exception that is pending
    unwinds.  When the environment has nothing more to offer the hook
    does not come back. *)
Definition MICROPY_EVENT_POLL_HOOK : M unit :=
  fun w =>
    match env_polls w with
    | [] => (Waiting, w)
    | step :: rest =>
        let w := with_polls rest (log EvPoll w) in
        let w := with_self (fold_left dispatch (dispatched step) (self w)) w in
        match pending_exception step with
        | Some e => (Raised e, w)
        | None => (Normal tt, w)
        end
    end.

(** The C string that starts a buffer: the bytes before the first NUL. *)
Fixpoint c_string (bytes : list ascii) : string :=
  match bytes with
  | [] => EmptyString
  | c :: rest => if Ascii.eqb c Ascii.zero then EmptyString else String c (c_string rest)
  end.

(** The message of a failed process: [error->message], or what
    [g_input_stream_read_all] finds in the stderr pipe when it succeeds
    and reads something.  The buffer has 4096 bytes and the read may
    fill it; the NUL is then stored one past its end. *)
Definition failure_message (p : subprocess) (error : option string) : M string :=
  fun w =>
    match error with
    | None => (Undefined NullDereference, w)
    | Some message =>
        let err_msg := message in
        let '(ok, data) := env_stderr w p in
        let stderr_bytes := firstn 4096 data in
        let bytes_read := Z.of_nat (List.length stderr_bytes) in
        if ok && negb (bytes_read =? 0) then
          if bytes_read <? 4096 then (Normal (c_string stderr_bytes), w)
          else (Undefined BufferOverrun, w)
        else (Normal err_msg, w)
    end.

(** The [do ... while (self->aplay_busy)] loop of [ev3dev_Speaker_play_file]
    with [n] more rounds to go.  [exception] is the flag of the C code
    together with [nlr.ret_val]: the last exception caught. *)
Fixpoint play_file_wait (n : nat) (aplay : subprocess) (exception : option exc)
    : M (option exc) :=
  exception <-
    catch
      (MICROPY_EVENT_POLL_HOOK ;; ret exception)
      (fun e => g_subprocess_force_exit aplay ;; ret (Some e)) ;;
  s <- get_self ;;
  if aplay_busy s then
    match n with
    | S n' => play_file_wait n' aplay exception
    | O => lift Waiting
    end
  else ret exception.

(** What [ev3dev_Speaker_play_file] does once the loop is left. *)
Definition play_file_finish (aplay : subprocess) (exception : option exc)
    : M mp_obj :=
  match exception with
  | Some e => g_object_unref aplay ;; nlr_jump e
  | None => ret tt
  end ;;
  s <- get_self ;;
  (if negb (aplay_result s) then
     err_msg <- failure_message aplay (aplay_error s) ;;
     g_object_unref aplay ;;
     nlr_jump (RuntimeError ("Playing file failed: " ++ err_msg))
   else ret tt) ;;
  g_object_unref aplay ;;
  ret mp_const_none.

(** [ev3dev_Speaker_play_file] *)
Definition ev3dev_Speaker_play_file (file : mp_obj) : M mp_obj :=
  path <- lift (mp_obj_str_get_str file) ;;
  r <- g_subprocess_new Aplay ["aplay"; "-q"; path]%string ;;
  aplay <-
    match r with
    | inl message =>
        nlr_jump (RuntimeError ("Failed to spawn aplay: " ++ message))
    | inr aplay => ret aplay
    end ;;
  modify_world (fun w =>
    with_self (set_aplay true (aplay_result (self w)) (aplay_error (self w))
                 (self w)) w) ;;
  g_subprocess_wait_check_async aplay ;;
  w <- get_world ;;
  exception <- play_file_wait (List.length (env_polls w)) aplay None ;;
  play_file_finish aplay exception.

(** The [do ... while] loop of [ev3dev_Speaker_say]. *)
Fixpoint say_wait (n : nat) (espeak aplay : subprocess) (exception : option exc)
    : M (option exc) :=
  exception <-
    catch
      (MICROPY_EVENT_POLL_HOOK ;; ret exception)
      (fun e =>
         g_subprocess_force_exit espeak ;;
         g_subprocess_force_exit aplay ;;
         ret (Some e)) ;;
  s <- get_self ;;
  if espeak_busy s || aplay_busy s || splice_busy s then
    match n with
    | S n' => say_wait n' espeak aplay exception
    | O => lift Waiting
    end
  else ret exception.

(** What [ev3dev_Speaker_say] does once the loop is left. *)
Definition say_finish (espeak aplay : subprocess) (exception : option exc)
    : M mp_obj :=
  match exception with
  | Some e => g_object_unref aplay ;; g_object_unref espeak ;; nlr_jump e
  | None => ret tt
  end ;;
  s <- get_self ;;
  (if negb (aplay_result s) then
     err_msg <- failure_message aplay (aplay_error s) ;;
     g_object_unref aplay ;;
     g_object_unref espeak ;;
     nlr_jump (RuntimeError ("Saying text failed: " ++ err_msg))
   else ret tt) ;;
  s <- get_self ;;
  (if negb (espeak_result s) then
     err_msg <- failure_message espeak (espeak_error s) ;;
     g_object_unref aplay ;;
     g_object_unref espeak ;;
     nlr_jump (RuntimeError ("Saying text failed: " ++ err_msg))
   else ret tt) ;;
  g_object_unref aplay ;;
  g_object_unref espeak ;;
  ret mp_const_none.

(** [ev3dev_Speaker_say] *)
Definition ev3dev_Speaker_say (text : mp_obj) : M mp_obj :=
  text_ <- lift (mp_obj_str_get_str text) ;;
  r <- g_subprocess_new Espeak
         ["espeak"; "-a"; "200"; "-s"; "100"; "-v"; "en"; "--stdout"; text_]%string ;;
  espeak <-
    match r with
    | inl message =>
        nlr_jump (RuntimeError ("Failed to spawn espeak: " ++ message))
    | inr espeak => ret espeak
    end ;;
  r <- g_subprocess_new Aplay ["aplay"; "-q"]%string ;;
  aplay <-
    match r with
    | inl message =>
        g_object_unref espeak ;;
        nlr_jump (RuntimeError ("Failed to spawn aplay: " ++ message))
    | inr aplay => ret aplay
    end ;;
  modify_world (fun w =>
    with_self (set_espeak true (espeak_result (self w)) (espeak_error (self w))
                 (self w)) w) ;;
  g_subprocess_wait_check_async espeak ;;
  modify_world (fun w =>
    with_self (set_aplay true (aplay_result (self w)) (aplay_error (self w))
                 (self w)) w) ;;
  g_subprocess_wait_check_async aplay ;;
  modify_world (fun w =>
    with_self (set_splice true (splice_result (self w)) (splice_error (self w))
                 (self w)) w) ;;
  g_output_stream_splice_async ;;
  w <- get_world ;;
  exception <- say_wait (List.length (env_polls w)) espeak aplay None ;;
  say_finish espeak aplay exception.

(** ** The battery module *)

Module Battery.

(** What the battery driver would report: voltage in mV and current in
    mA, both [uint16_t]. *)
Record pbdrv_battery : Type := mk_battery {
  voltage_now : Z;
  current_now : Z
}.

(** [battery_percent] and [battery_low]: neither calls the driver. *)
Definition battery_percent (b : pbdrv_battery) : outcome mp_obj :=
  ret (mp_obj_new_int 100).

Definition battery_low (b : pbdrv_battery) : outcome mp_obj :=
  ret (mp_obj_new_bool false).

End Battery.

(** ** Vocabulary of the statements *)

(** The delays a trace contains, in order. *)
Fixpoint delays_of (tr : list event) : list Z :=
  match tr with
  | [] => []
  | EvDelay ms :: rest => ms :: delays_of rest
  | _ :: rest => delays_of rest
  end.

(** The values the code wrote to the sound device, in order. *)
Fixpoint tones_of (tr : list event) : list Z :=
  match tr with
  | [] => []
  | EvWrite _ value _ :: rest => value :: tones_of rest
  | _ :: rest => tones_of rest
  end.

(** The call that took [w] to [w'] ended by writing silence to the
    descriptor of the speaker, and the device is silent if that write
    went through. *)
Definition silenced (w w' : world) : Prop :=
  exists evs r,
    trace w' = trace w ++ evs ++ [EvWrite (beep_fd (self w)) 0 r] /\
    (r <> -1 -> tone w' = 0).

(** A speaker that is constructed over the open descriptor 3 of a device
    that never fails: the world of the examples. *)
Definition ready_world : world :=
  mk_world (set_intialized true (set_beep_fd 3 no_speaker)) 0 0 []
    (3, 0) [] [] (fun _ => None) [] (fun _ => (true, [])).

(** [w'] is [w] after some writes to the device: only the trace, the
    tone, [errno] and the script of the writes may differ. *)
Record wrote (w w' : world) : Prop := mk_wrote {
  wrote_self : self w' = self w;
  wrote_open : env_open w' = env_open w;
  wrote_delays : env_delays w' = env_delays w;
  wrote_spawn : env_spawn w' = env_spawn w;
  wrote_polls : env_polls w' = env_polls w;
  wrote_stderr : env_stderr w' = env_stderr w
}.

(** [w'] is [w] after some playing: the speaker object is the same and
    the trace has grown. *)
Definition played (w w' : world) : Prop :=
  self w' = self w /\ exists evs, trace w' = trace w ++ evs.

(** A result of the parser of notes: a value or a [ValueError]. *)
Definition parsed {A : Type} (r : outcome A) : Prop :=
  match r with
  | Normal _ => True
  | Raised (ValueError _) => True
  | _ => False
  end.

(** A call came back: it returned or it raised. *)
Definition came_back {A : Type} (r : outcome A) : Prop :=
  match r with
  | Normal _ | Raised _ => True
  | _ => False
  end.

(** The spellings of the notes that are no rest, each with the
    frequency of its pitch in octave 0; the two spellings of one pitch
    have one frequency. *)
Definition base_frequency : list (string * float) :=
  [("C", 16.35); ("C#", 17.32); ("Db", 17.32); ("D", 18.35); ("D#", 19.45);
   ("Eb", 19.45); ("E", 20.60); ("F", 21.83); ("F#", 23.12); ("Gb", 23.12);
   ("G", 24.50); ("G#", 25.96); ("Ab", 25.96); ("A", 27.50); ("A#", 29.14);
   ("Bb", 29.14); ("B", 30.87)]%string%float.

(** The frequency of a note as the spec words it: the base of octave 0
    doubled once for each octave. *)
Definition spec_frequency (base : float) (octave : Z) : float :=
  PrimFloat.mul base (double_of_int (2 ^ octave)).

(** The character of a decimal digit. *)
Definition digit (n : Z) : string :=
  String (ascii_of_N (Z.to_N (chr "0" + n))) EmptyString.

(** A world in which the sound device is missing: [open] will fail with
    [ENOENT]. *)
Definition deviceless_world : world :=
  mk_world no_speaker 0 0 [] (-1, 2) [] [] (fun _ => None) []
    (fun _ => (true, [])).

(** The two loops that wait for the helper processes are one loop: it
    differs in the test of the busy flags and in the processes it
    forces to exit when an exception arrives. *)
Fixpoint force_exit_all (victims : list subprocess) : M unit :=
  match victims with
  | [] => ret tt
  | p :: rest => g_subprocess_force_exit p ;; force_exit_all rest
  end.

Fixpoint wait_loop (busy : ev3dev_Speaker_obj_t -> bool)
    (victims : list subprocess) (n : nat) (exception : option exc)
    : M (option exc) :=
  exception <-
    catch
      (MICROPY_EVENT_POLL_HOOK ;; ret exception)
      (fun e => force_exit_all victims ;; ret (Some e)) ;;
  s <- get_self ;;
  if busy s : bool then
    match n with
    | S n' => wait_loop busy victims n' exception
    | O => lift Waiting
    end
  else ret exception.

Definition say_busy (s : ev3dev_Speaker_obj_t) : bool :=
  espeak_busy s || aplay_busy s || splice_busy s.

(** What one round of the loop adds to the trace: a run of the poll
    hook and, when it raised, the forced exits. *)
Definition round (victims : list subprocess) (st : poll_step) : list event :=
  EvPoll ::
  match pending_exception st with
  | Some _ => map EvForceExit victims
  | None => []
  end.

(** The exception [nlr.ret_val] holds after these rounds: the last one
    raised, [e0] when none was. *)
Fixpoint last_exception (e0 : option exc) (steps : list poll_step) : option exc :=
  match steps with
  | [] => e0
  | st :: rest =>
      last_exception
        (match pending_exception st with Some e => Some e | None => e0 end)
        rest
  end.

(** The speaker object after the callbacks of these rounds have run. *)
Definition after_rounds (s : ev3dev_Speaker_obj_t) (steps : list poll_step)
    : ev3dev_Speaker_obj_t :=
  fold_left (fun s st => fold_left dispatch (dispatched st) s) steps s.

Definition is_aplay_exit (c : completion) : bool :=
  match c with AplayExited _ => true | _ => false end.
Definition is_espeak_exit (c : completion) : bool :=
  match c with EspeakExited _ => true | _ => false end.
Definition is_splice_end (c : completion) : bool :=
  match c with SpliceFinished _ _ => true | _ => false end.

(** Some of these rounds dispatch a completion of the kind [f]. *)
Definition dispatches (f : completion -> bool) (steps : list poll_step) : bool :=
  existsb (fun st => existsb f (dispatched st)) steps.

(** All three notifications of [say] have arrived in these rounds. *)
Definition all_done (steps : list poll_step) : bool :=
  dispatches is_espeak_exit steps && dispatches is_aplay_exit steps
  && dispatches is_splice_end steps.

(** The speaker object once [play_file], respectively [say], has armed
    its busy flags. *)
Definition play_file_armed (s : ev3dev_Speaker_obj_t) : ev3dev_Speaker_obj_t :=
  set_aplay true (aplay_result s) (aplay_error s) s.

Definition say_armed (s : ev3dev_Speaker_obj_t) : ev3dev_Speaker_obj_t :=
  let s := set_espeak true (espeak_result s) (espeak_error s) s in
  let s := set_aplay true (aplay_result s) (aplay_error s) s in
  set_splice true (splice_result s) (splice_error s) s.

(** The text of a failure: the stderr of the process when the read of it
    succeeded and found something, the message of the wait otherwise. *)
Definition diagnostic (captured : bool * list ascii) (generic : string) : string :=
  let '(ok, data) := captured in
  match data with
  | _ :: _ => if ok then c_string data else generic
  | [] => generic
  end.

(** A busy flag that is down stays down: the callbacks only lower it. *)
Definition lowered_only (busy : ev3dev_Speaker_obj_t -> bool) : Prop :=
  forall steps s, busy (after_rounds s steps) = true -> busy s = true.

(** The world when [play_file], respectively [say], enters its loop:
    the processes are spawned, the busy flags are up and the waits are
    registered. *)
Definition play_file_started (path : string) (w : world) : world :=
  log (EvWaitCheck Aplay)
    (with_self (play_file_armed (self w))
       (log (EvSpawn Aplay ["aplay"; "-q"; path]%string) w)).

Definition say_started (text : string) (w : world) : world :=
  log EvSplice
    (with_self (say_armed (self w))
       (log (EvWaitCheck Aplay)
          (log (EvWaitCheck Espeak)
             (log (EvSpawn Aplay ["aplay"; "-q"]%string)
                (log (EvSpawn Espeak
                        ["espeak"; "-a"; "200"; "-s"; "100"; "-v"; "en";
                         "--stdout"; text]%string) w))))).

(** A world for the examples of [play_file] and [say]: the text is
    synthesised, a [KeyboardInterrupt] arrives with the exit of espeak,
    the splice ends, and aplay ends last, with an error. *)
Definition interrupted_world : world :=
  mk_world (set_intialized true (set_beep_fd 3 no_speaker)) 0 0 []
    (3, 0) [] [] (fun _ => None)
    [mk_poll [] None;
     mk_poll [EspeakExited None] (Some KeyboardInterrupt);
     mk_poll [SpliceFinished 10 None] None;
     mk_poll [AplayExited (Some "Child process killed by signal 9"%string)] None;
     mk_poll [] None]
    (fun _ => (true, [])).

(** A world in which aplay fails after it has written 4096 bytes to its
    stderr. *)
Definition flooded_world : world :=
  mk_world (set_intialized true (set_beep_fd 3 no_speaker)) 0 0 []
    (3, 0) [] [] (fun _ => None)
    [mk_poll [AplayExited (Some "Child process exited with code 1"%string)] None]
    (fun _ => (true, repeat "x"%char 4096)).

(** A world in which both processes of [say] fail, each with a line on
    its stderr. *)
Definition failing_world : world :=
  mk_world (set_intialized true (set_beep_fd 3 no_speaker)) 0 0 []
    (3, 0) [] [] (fun _ => None)
    [mk_poll [EspeakExited (Some "Child process exited with code 2"%string);
              SpliceFinished 0 None] None;
     mk_poll [AplayExited (Some "Child process exited with code 1"%string)] None]
    (fun p =>
       match p with
       | Aplay => (true, list_ascii_of_string "aplay: no sound card")
       | Espeak => (true, list_ascii_of_string "espeak: no voice")
       end).

(** The grammar of a note, for the statements about the parser: the
    digits of the fraction, its value, and the decorations. *)
Definition fraction_digits (d1 : Z) (d2 : option Z) : string :=
  digit d1 ++ match d2 with Some d => digit d | None => EmptyString end.

Definition fraction_value (d1 : Z) (d2 : option Z) : Z :=
  match d2 with Some d => d1 * 10 + d | None => d1 end.

Definition decorations (dot tie : bool) : string :=
  ((if dot then "." else "") ++ (if tie then "_" else ""))%string.

(** What follows a complete note is not taken for a part of it: after a
    tie nothing is; otherwise it starts with no tie, after a note with
    no dot with no dot, and after a fraction of one digit and no dot
    with no digit. *)
Definition not_consumed (d2 : option Z) (dot tie : bool) (rest : string) : Prop :=
  let c := note_at rest 0 in
  if tie then True
  else
    c <> chr "_" /\
    (if dot then True
     else
       c <> chr "." /\
       match d2 with
       | Some _ => True
       | None => c - chr "0" < 0 \/ 9 < c - chr "0"
       end).

(** The kind of a completion: which of the three callbacks it is for. *)
Definition completion_kind (c : completion) : nat :=
  match c with
  | AplayExited _ => 0
  | EspeakExited _ => 1
  | SpliceFinished _ _ => 2
  end.

(** A world in which aplay is not installed. *)
Definition aplayless_world : world :=
  mk_world (set_intialized true (set_beep_fd 3 no_speaker)) 0 0 []
    (3, 0) [] []
    (fun p =>
       match p with
       | Aplay => Some "No such file or directory"%string
       | Espeak => None
       end)
    [] (fun _ => (true, [])).

(** An item of a melody that is no note: not a str, or a str the parser
    raises on. *)
Definition rejected (item : mp_obj) (duration : Z) : Prop :=
  match item with
  | mp_obj_new_str note => exists e, parse_note note duration = Raised e
  | _ => True
  end.

(** No byte of the note before [pos] is a NUL. *)
Definition no_nul_before (note : string) (pos : nat) : Prop :=
  forall q, (q < pos)%nat -> note_at note q <> 0.

(** Two notes that are the same up to the first NUL of the first one,
    that NUL included. *)
Definition same_up_to_nul (n1 n2 : string) : Prop :=
  forall p, no_nul_before n1 p -> note_at n1 p = note_at n2 p.

(** The call [c] goes the same way from [w] and from [w']: it ends with
    the same outcome after the same delays, and leaves the same
    interruptions for later delays. *)
Definition same_run {A : Type} (c : M A) (w w' : world) : Prop :=
  exists r w1 w1' evs evs',
    c w = (r, w1) /\
    c w' = (r, w1') /\
    env_delays w1 = env_delays w1' /\
    trace w1 = trace w ++ evs /\
    trace w1' = trace w' ++ evs' /\
    delays_of evs = delays_of evs'.

(** A call that goes the same way from any two worlds in which the
    delays are interrupted alike, whatever else differs: the speaker
    object, its descriptor, the answers of the device. *)
Definition device_blind {A : Type} (c : M A) : Prop :=
  forall w w', env_delays w = env_delays w' -> same_run c w w'.


(** What the exit of aplay reported to its callback, when aplay exits
    once among these completions: the error of the wait, or none. *)
Definition aplay_reports (cs : list completion) (res : option string) : Prop :=
  exists before after,
    cs = before ++ AplayExited res :: after /\
    existsb is_aplay_exit before = false /\
    existsb is_aplay_exit after = false.

(** ** The monad *)

Lemma bind_M_normal {A B : Type} (c : M A) (k : A -> M B) w a w1 :
  c w = (Normal a, w1) -> bind c k w = k a w1.
Proof. intros H. cbn. rewrite H. reflexivity. Qed.

(** ** The sound device *)

Lemma sys_write_spec fd value w :
  exists r w',
    sys_write fd value w = (Normal r, w') /\
    wrote w w' /\
    trace w' = trace w ++ [EvWrite fd value r] /\
    (r <> -1 -> tone w' = value) /\
    (r = -1 -> tone w' = tone w) /\
    (List.length (env_writes w') <= List.length (env_writes w))%nat /\
    (r = -1 -> errno w' = EINTR ->
     (List.length (env_writes w') < List.length (env_writes w))%nat).
Proof.
  unfold sys_write. destruct (fd <? 0) eqn:Hfd.
  - do 2 eexists. split; [reflexivity|].
    repeat split; cbn; auto; try lia. intros _ H. discriminate H.
  - destruct (env_writes w) as [| [| e] rest] eqn:Hw.
    + do 2 eexists. split; [reflexivity|].
      repeat split; cbn; auto; try lia; rewrite ?Hw; cbn; lia.
    + do 2 eexists. split; [reflexivity|].
      repeat split; cbn; auto; try lia.
    + do 2 eexists. split; [reflexivity|].
      repeat split; cbn; auto; try lia.
Qed.

Lemma wrote_refl w : wrote w w.
Proof. constructor; reflexivity. Qed.

Lemma wrote_trans w1 w2 w3 : wrote w1 w2 -> wrote w2 w3 -> wrote w1 w3.
Proof.
  intros [] []. constructor; etransitivity; eassumption.
Qed.

(** The retry loop ends, and not on an interrupted write, once it may
    retry as often as the script of the environment is long. *)
Lemma write_retry_spec n fd value : forall w,
  (List.length (env_writes w) <= n)%nat ->
  exists r w' evs,
    write_retry n fd value w = (Normal r, w') /\
    wrote w w' /\
    trace w' = trace w ++ evs ++ [EvWrite fd value r] /\
    tones_of evs = repeat value (List.length evs) /\
    delays_of evs = [] /\
    (r <> -1 -> tone w' = value) /\
    (r = -1 -> tone w' = tone w) /\
    ~ (r = -1 /\ errno w' = EINTR).
Proof.
  induction n as [| n IH]; intros w Hlen.
  - destruct (sys_write_spec fd value w)
      as (r & w1 & Hrun & Hw & Htr & Hok & Hko & Hle & Hlt).
    exists r, w1, []. cbn. rewrite Hrun. cbn.
    do 7 (split; [solve [auto] |]).
    intros [Hr He]. specialize (Hlt Hr He). lia.
  - destruct (sys_write_spec fd value w)
      as (r & w1 & Hrun & Hw & Htr & Hok & Hko & Hle & Hlt).
    cbn. rewrite Hrun. cbn.
    destruct ((r =? -1) && (errno w1 =? EINTR)) eqn:Hretry.
    + apply andb_true_iff in Hretry. destruct Hretry as [Hr He].
      apply Z.eqb_eq in Hr. apply Z.eqb_eq in He.
      specialize (Hlt Hr He).
      destruct (IH w1 ltac:(lia))
        as (r2 & w2 & evs & Hrun2 & Hw2 & Htr2 & Hts & Hds & Hok2 & Hko2 & Hex).
      exists r2, w2, (EvWrite fd value r :: evs).
      split; [exact Hrun2|].
      split; [eapply wrote_trans; eassumption|].
      split; [rewrite Htr2, Htr, <- app_assoc; reflexivity|].
      split; [cbn; rewrite Hts; reflexivity|].
      split; [cbn; exact Hds|].
      split; [exact Hok2|].
      split; [intros H; rewrite (Hko2 H); auto|exact Hex].
    + exists r, w1, []. cbn.
      do 7 (split; [solve [auto] |]).
      intros [Hr He]. subst r.
      rewrite He in Hretry. cbn in Hretry. discriminate.
Qed.

Lemma set_beep_frequency_spec freq w :
  exists r w' evs,
    set_beep_frequency freq w = (Normal r, w') /\
    wrote w w' /\
    trace w' = trace w ++ evs ++ [EvWrite (beep_fd (self w)) freq r] /\
    tones_of evs = repeat freq (List.length evs) /\
    delays_of evs = [] /\
    (r <> -1 -> tone w' = freq) /\
    (r = -1 -> tone w' = tone w) /\
    ~ (r = -1 /\ errno w' = EINTR).
Proof.
  unfold set_beep_frequency. cbn.
  apply write_retry_spec. reflexivity.
Qed.

(** A write to a descriptor that is not open fails with [EBADF] and
    leaves the device alone. *)
Lemma set_beep_frequency_closed freq w :
  beep_fd (self w) < 0 ->
  set_beep_frequency freq w =
    (Normal (-1), with_errno EBADF (log (EvWrite (beep_fd (self w)) freq (-1)) w)).
Proof.
  intros Hfd. unfold set_beep_frequency. cbn.
  destruct (List.length (env_writes w)); cbn; unfold sys_write;
    apply Z.ltb_lt in Hfd; rewrite Hfd; cbn; reflexivity.
Qed.

(** A delay logs itself and either ends or unwinds. *)
Lemma mp_hal_delay_ms_spec ms w :
  exists r w',
    mp_hal_delay_ms ms w = (r, w') /\
    (r = Normal tt \/ exists e, r = Raised e) /\
    self w' = self w /\
    tone w' = tone w /\
    trace w' = trace w ++ [EvDelay ms].
Proof.
  unfold mp_hal_delay_ms.
  destruct (env_delays w) as [| [e |] rest]; do 2 eexists;
    (split; [reflexivity|]); cbn; repeat split; eauto.
Qed.

(** ** The parser of notes *)

#[local] Arguments note_name : simpl never.
#[local] Arguments note_octave : simpl never.
#[local] Arguments note_delimiter : simpl never.
#[local] Arguments note_fraction : simpl never.
#[local] Arguments note_decorations : simpl never.
#[local] Arguments c_div : simpl never.

Ltac case_if :=
  match goal with
  | |- context [if ?b then _ else _] => destruct b eqn:?
  end.

Lemma note_at_S c s n : note_at (String c s) (S n) = note_at s n.
Proof. reflexivity. Qed.

Lemma note_at_O c s : note_at (String c s) 0 = chr c.
Proof. reflexivity. Qed.

Ltac read_note := cbn; rewrite ?note_at_S, ?note_at_O.

Ltac unfold_parser :=
  unfold parse_note, note_name, switch_accidental, note_octave,
    note_delimiter, note_fraction, note_decorations, c_div.

Lemma switch_accidental_parsed note pos flat sharp natural :
  parsed flat -> parsed sharp ->
  parsed (switch_accidental note pos flat sharp natural).
Proof.
  intros Hf Hs. unfold switch_accidental.
  destruct (note_at note pos =? chr "b").
  - destruct flat as [f | [] | |]; cbn in *; auto.
  - destruct (note_at note pos =? chr "#").
    + destruct sharp as [f | [] | |]; cbn in *; auto.
    + exact I.
Qed.

Lemma note_name_parsed note pos : parsed (note_name note pos).
Proof.
  unfold note_name.
  repeat match goal with
  | |- parsed (if ?b then _ else _) => destruct b
  | |- parsed (switch_accidental _ _ _ _ _) =>
      apply switch_accidental_parsed; exact I
  end; exact I.
Qed.

Lemma note_octave_parsed note freq pos : parsed (note_octave note freq pos).
Proof.
  unfold note_octave.
  case_if; [| exact I]. case_if; exact I.
Qed.

Lemma note_delimiter_parsed note pos : parsed (note_delimiter note pos).
Proof.
  unfold note_delimiter. case_if; exact I.
Qed.

Lemma note_fraction_parsed note pos : parsed (note_fraction note pos).
Proof.
  unfold note_fraction.
  case_if; [exact I |]. cbn. case_if; exact I.
Qed.

Lemma note_decorations_parsed note duration pos :
  parsed (note_decorations note duration pos).
Proof.
  unfold note_decorations.
  case_if; case_if; exact I.
Qed.

(** The parser of a note ends with a value or a [ValueError], or divides
    by a zero fraction; nothing else. *)
Lemma parse_note_outcome note duration :
  parsed (parse_note note duration) \/
  parse_note note duration = Undefined DivisionByZero.
Proof.
  unfold parse_note.
  pose proof (note_name_parsed note 0) as H1.
  destruct (note_name note 0) as [[freq pos] | [] | |]; cbn in *; auto; try tauto.
  pose proof (note_octave_parsed note freq pos) as H2.
  destruct (note_octave note freq pos) as [[freq' pos'] | [] | |];
    cbn in *; auto; try tauto.
  pose proof (note_delimiter_parsed note pos') as H3.
  destruct (note_delimiter note pos') as [pos2 | [] | |]; cbn in *; auto; try tauto.
  pose proof (note_fraction_parsed note pos2) as H4.
  destruct (note_fraction note pos2) as [[fraction pos3] | [] | |];
    cbn in *; auto; try tauto.
  unfold c_div. destruct (fraction =? 0); cbn; auto.
  pose proof (note_decorations_parsed note (duration ÷ fraction) pos3) as H5.
  destruct (note_decorations note (duration ÷ fraction) pos3)
    as [[d rel] | [] | |]; cbn in *; auto; try tauto.
Qed.

(** ** Playing notes *)

#[local] Arguments set_beep_frequency : simpl never.
#[local] Arguments mp_hal_delay_ms : simpl never.
#[local] Arguments parse_note : simpl never.
#[local] Arguments Z.mul : simpl never.
#[local] Arguments Z.quot : simpl never.

Lemma played_refl w : played w w.
Proof. split; [reflexivity | exists []; rewrite app_nil_r; reflexivity]. Qed.

Lemma played_trans w1 w2 w3 : played w1 w2 -> played w2 w3 -> played w1 w3.
Proof.
  intros [Hs1 [evs1 Ht1]] [Hs2 [evs2 Ht2]]. split.
  - congruence.
  - exists (evs1 ++ evs2). rewrite Ht2, Ht1, app_assoc. reflexivity.
Qed.

Lemma set_beep_frequency_played freq w :
  exists r w', set_beep_frequency freq w = (Normal r, w') /\ played w w'.
Proof.
  destruct (set_beep_frequency_spec freq w) as (r & w' & evs & Hrun & Hw & Htr & _).
  exists r, w'. split; [exact Hrun|]. split.
  - apply (wrote_self _ _ Hw).
  - eexists. exact Htr.
Qed.

Lemma mp_hal_delay_ms_played ms w :
  exists r w',
    mp_hal_delay_ms ms w = (r, w') /\
    (r = Normal tt \/ exists e, r = Raised e) /\ played w w'.
Proof.
  destruct (mp_hal_delay_ms_spec ms w) as (r & w' & Hrun & Hr & Hs & _ & Htr).
  exists r, w'. repeat split; auto. eexists. exact Htr.
Qed.

(** One note: the call returns, raises, or divides by the zero fraction
    of the note; the speaker object stays as it is. *)
Lemma ev3dev_Speaker_play_note_spec obj duration w :
  exists r w',
    ev3dev_Speaker_play_note obj duration w = (r, w') /\
    played w w' /\
    (came_back r \/
     r = Undefined DivisionByZero /\
     exists note,
       obj = mp_obj_new_str note /\
       parse_note note duration = Undefined DivisionByZero).
Proof.
  unfold ev3dev_Speaker_play_note.
  destruct obj as [| b | z | note | items |];
    try (exists (Raised TypeError), w; cbn;
         split; [reflexivity | split; [apply played_refl | left; exact I]]).
  cbn. unfold lift.
  destruct (parse_note_outcome note duration) as [Hp | Hp].
  2:{ rewrite Hp. exists (Undefined DivisionByZero), w.
      split; [reflexivity | split; [apply played_refl |]].
      right. split; [reflexivity|]. exists note. split; [reflexivity | exact Hp]. }
  destruct (parse_note note duration) as [[[freq d] release] | e | u |];
    cbn in Hp; try contradiction.
  2:{ exists (Raised e), w.
      split; [reflexivity | split; [apply played_refl | left; exact I]]. }
  destruct (set_beep_frequency_played (int_of_double freq) w)
    as (r1 & w1 & Hrun1 & Hpl1).
  rewrite Hrun1; cbn.
  destruct release.
  - destruct (mp_hal_delay_ms_played (7 * d ÷ 8) w1)
      as (r2 & w2 & Hrun2 & Hr2 & Hpl2).
    rewrite Hrun2; cbn.
    destruct Hr2 as [-> | [e ->]].
    2:{ exists (Raised e), w2. split; [reflexivity|]. split; [|left; exact I].
        eapply played_trans; eassumption. }
    destruct (set_beep_frequency_played 0 w2) as (r3 & w3 & Hrun3 & Hpl3).
    rewrite Hrun3; cbn.
    destruct (mp_hal_delay_ms_played (d ÷ 8) w3)
      as (r4 & w4 & Hrun4 & Hr4 & Hpl4).
    exists r4, w4. split; [exact Hrun4|]. split.
    + repeat (eapply played_trans; [eassumption|]). apply played_refl.
    + left. destruct Hr4 as [-> | [e ->]]; exact I.
  - destruct (mp_hal_delay_ms_played d w1)
      as (r2 & w2 & Hrun2 & Hr2 & Hpl2).
    exists r2, w2. split; [exact Hrun2|]. split.
    + eapply played_trans; eassumption.
    + left. destruct Hr2 as [-> | [e ->]]; exact I.
Qed.

Lemma play_each_spec items duration : forall w,
  exists r w',
    play_each items duration w = (r, w') /\
    played w w' /\
    (came_back r \/
     r = Undefined DivisionByZero /\
     exists note,
       In (mp_obj_new_str note) items /\
       parse_note note duration = Undefined DivisionByZero).
Proof.
  induction items as [| item rest IH]; intros w.
  - exists (Normal tt), w. cbn.
    split; [reflexivity | split; [apply played_refl | left; exact I]].
  - destruct (ev3dev_Speaker_play_note_spec item duration w)
      as (r1 & w1 & Hrun1 & Hpl1 & Hr1).
    cbn -[ev3dev_Speaker_play_note]. rewrite Hrun1.
    destruct r1 as [[] | e | u |].
    + destruct (IH w1) as (r2 & w2 & Hrun2 & Hpl2 & Hr2).
      exists r2, w2. split; [exact Hrun2|].
      split; [eapply played_trans; eassumption|].
      destruct Hr2 as [Hr2 | (Hr2 & note & Hin & Hp)]; [left; exact Hr2|].
      right. split; [exact Hr2|]. exists note. split; [right; exact Hin | exact Hp].
    + exists (Raised e), w1.
      split; [reflexivity | split; [exact Hpl1 | left; exact I]].
    + exists (Undefined u), w1. split; [reflexivity|]. split; [exact Hpl1|].
      destruct Hr1 as [Hr1 | (Hr1 & note & -> & Hp)]; [contradiction|].
      right. split; [exact Hr1|]. exists note. split; [left; reflexivity | exact Hp].
    + exists Waiting, w1. split; [reflexivity|]. split; [exact Hpl1|].
      destruct Hr1 as [Hr1 | (Hr1 & _)]; [contradiction | discriminate].
Qed.

Lemma silenced_after w w1 w2 evs r :
  played w w1 ->
  wrote w1 w2 ->
  trace w2 = trace w1 ++ evs ++ [EvWrite (beep_fd (self w1)) 0 r] ->
  (r <> -1 -> tone w2 = 0) ->
  silenced w w2.
Proof.
  intros [Hs [evs1 Ht1]] Hw Ht2 Htone.
  exists (evs1 ++ evs), r. split; [| exact Htone].
  rewrite Ht2, Ht1, Hs, <- !app_assoc. reflexivity.
Qed.

(** How [play_notes] over a sequence of notes can end.  It returns
    [None], or it raises what a note or a delay raised; in both cases
    the last thing it did was to write frequency 0 to the sound device,
    including after a final note with a tie.  Or it does not come back
    at all, because it divides by zero: that is so only when the tempo
    is 0 or a note of the sequence has the fraction 0, and then nothing
    is said here about the device.  It never hangs. *)
Theorem play_notes_leaves_silence (items : list mp_obj) (tempo : Z) (w : world) :
  let '(r, w') := ev3dev_Speaker_play_notes (mp_obj_new_list items) tempo w in
  match r with
  | Normal v => v = mp_const_none /\ silenced w w'
  | Raised e => silenced w w'
  | Undefined u =>
      u = DivisionByZero /\
      (tempo = 0 \/
       exists note,
         In (mp_obj_new_str note) items /\
         parse_note note (4 * 60 * 1000 ÷ tempo) = Undefined DivisionByZero)
  | Waiting => False
  end.
Proof.
  unfold ev3dev_Speaker_play_notes, lift, c_div.
  cbn -[play_each].
  destruct (Z.eqb_spec tempo 0) as [Htempo | Htempo]; [auto |].
  destruct (play_each_spec items (4 * 60 * 1000 ÷ tempo) w)
    as (r1 & w1 & Hrun1 & Hpl1 & Hr1).
  rewrite Hrun1.
  destruct (set_beep_frequency_spec 0 w1)
    as (r0 & w2 & evs & Hrun2 & Hw2 & Htr2 & _ & _ & Hok & _).
  destruct r1 as [[] | e | u |]; cbn -[play_each].
  - rewrite Hrun2. cbn. split; [reflexivity|].
    eapply silenced_after; eassumption.
  - rewrite Hrun2. cbn.
    eapply silenced_after; eassumption.
  - destruct Hr1 as [Hr1 | (Hr1 & Hnote)]; [contradiction|].
    split; [congruence | right; exact Hnote].
  - destruct Hr1 as [Hr1 | (Hr1 & _)]; [contradiction | discriminate].
Qed.

(** Two runs of [play_notes]: a melody that ends on a tied note, and a
    melody that fails at its second note while the first, tied, still
    sounds.  Both end with the write of 0. *)
Example play_notes_final_tie :
  run (ev3dev_Speaker_play_notes (mp_obj_new_list [mp_obj_new_str "C4/4_"]) 120)
      ready_world
    = (Normal mp_const_none, [EvWrite 3 523 16; EvDelay 500; EvWrite 3 0 16]).
Proof. vm_compute. reflexivity. Qed.

Example play_notes_bad_second_note :
  run (ev3dev_Speaker_play_notes
         (mp_obj_new_list [mp_obj_new_str "C4/4_"; mp_obj_new_str "H4/4"]) 120)
      ready_world
    = (Raised (ValueError "Missing note name A-G or R"),
       [EvWrite 3 523 16; EvDelay 500; EvWrite 3 0 16]).
Proof. vm_compute. reflexivity. Qed.

(** ** Beeps *)

(** C9.  When the write that turns the tone on goes through, the device
    sounds at the given frequency.  With a negative duration [beep]
    returns [None] at once and does nothing more.  Otherwise it delays
    for the duration and writes frequency 0; it returns [None] when the
    delay ran to its end and raises again what interrupted the delay,
    in both cases after the write of 0. *)
Theorem ev3dev_Speaker_beep_spec (frequency duration : Z) (w : world)
    (r1 : Z) (w1 : world) :
  set_beep_frequency frequency w = (Normal r1, w1) ->
  r1 <> -1 ->
  tone w1 = frequency /\
  (duration < 0 ->
   ev3dev_Speaker_beep frequency duration w = (Normal mp_const_none, w1)) /\
  (0 <= duration ->
   exists d w2 r0 w3,
     mp_hal_delay_ms duration w1 = (d, w2) /\
     trace w2 = trace w1 ++ [EvDelay duration] /\
     set_beep_frequency 0 w2 = (Normal r0, w3) /\
     (r0 <> -1 -> tone w3 = 0) /\
     ev3dev_Speaker_beep frequency duration w =
       (match d with
        | Raised e => Raised e
        | _ => Normal mp_const_none
        end, w3)).
Proof.
  intros Hrun1 Hr1.
  destruct (set_beep_frequency_spec frequency w)
    as (r & w' & evs & Hrun & _ & _ & _ & _ & Hok & _).
  rewrite Hrun in Hrun1. inversion Hrun1; subst r w'. clear Hrun1.
  split; [auto|].
  apply Z.eqb_neq in Hr1.
  split.
  - intros Hneg. apply Z.ltb_lt in Hneg.
    unfold ev3dev_Speaker_beep. cbn. rewrite Hrun. cbn.
    rewrite Hr1. cbn. rewrite Hneg. reflexivity.
  - intros Hpos. apply Z.ltb_ge in Hpos.
    destruct (mp_hal_delay_ms_spec duration w1)
      as (d & w2 & Hrun2 & Hd & _ & _ & Htr2).
    destruct (set_beep_frequency_spec 0 w2)
      as (r0 & w3 & evs3 & Hrun3 & _ & _ & _ & _ & Hok3 & _).
    exists d, w2, r0, w3.
    do 4 (split; [assumption|]).
    unfold ev3dev_Speaker_beep. cbn. rewrite Hrun. cbn.
    rewrite Hr1. cbn. rewrite Hpos. rewrite Hrun2.
    destruct Hd as [-> | [e ->]]; cbn; rewrite Hrun3; reflexivity.
Qed.

(** A run of C9: a beep of 500 Hz, once for 100 ms and once without
    end. *)
Lemma ev3dev_Speaker_beep_spec_witness :
  tone (snd (ev3dev_Speaker_beep 500 (-1) ready_world)) = 500 /\
  run (ev3dev_Speaker_beep 500 (-1)) ready_world =
    (Normal mp_const_none, [EvWrite 3 500 16]) /\
  run (ev3dev_Speaker_beep 500 100) ready_world =
    (Normal mp_const_none, [EvWrite 3 500 16; EvDelay 100; EvWrite 3 0 16]).
Proof.
  destruct (ev3dev_Speaker_beep_spec 500 (-1) ready_world 16
              (with_tone 500 (log (EvWrite 3 500 16) ready_world))
              eq_refl ltac:(lia)) as (Htone & Hneg & _).
  destruct (ev3dev_Speaker_beep_spec 500 100 ready_world 16
              (with_tone 500 (log (EvWrite 3 500 16) ready_world))
              eq_refl ltac:(lia)) as (_ & _ & Hpos).
  specialize (Hneg ltac:(lia)).
  destruct (Hpos ltac:(lia)) as (d & w2 & r0 & w3 & Hd & _ & H0 & _ & Hrun).
  vm_compute in Hd. inversion Hd; subst d w2. clear Hd.
  vm_compute in H0. inversion H0; subst r0 w3. clear H0.
  unfold run. rewrite Hneg, Hrun. cbn.
  repeat split.
Defined.

(** ** Timing of a melody *)

(** The writes of one call of [set_beep_frequency]: failed attempts of
    the same value, then the attempt that ends the loop. *)
Lemma write_retry_attempts n fd value : forall w,
  exists r w' k,
    write_retry n fd value w = (Normal r, w') /\
    wrote w w' /\
    trace w' = trace w ++ repeat (EvWrite fd value (-1)) k ++ [EvWrite fd value r] /\
    (r <> -1 -> tone w' = value).
Proof.
  induction n as [| n IH]; intros w.
  - destruct (sys_write_spec fd value w)
      as (r & w1 & Hrun & Hw & Htr & Hok & _).
    exists r, w1, 0%nat. cbn. rewrite Hrun. cbn. auto.
  - destruct (sys_write_spec fd value w)
      as (r & w1 & Hrun & Hw & Htr & Hok & _).
    cbn. rewrite Hrun. cbn.
    destruct ((r =? -1) && (errno w1 =? EINTR)) eqn:Hretry.
    + apply andb_true_iff in Hretry. destruct Hretry as [Hr _].
      apply Z.eqb_eq in Hr. subst r.
      destruct (IH w1) as (r2 & w2 & k & Hrun2 & Hw2 & Htr2 & Hok2).
      exists r2, w2, (S k).
      split; [exact Hrun2|].
      split; [eapply wrote_trans; eassumption|].
      split; [rewrite Htr2, Htr; cbn; rewrite <- app_assoc; reflexivity | exact Hok2].
    + exists r, w1, 0%nat. cbn. auto.
Qed.

Lemma delays_of_app tr1 tr2 : delays_of (tr1 ++ tr2) = delays_of tr1 ++ delays_of tr2.
Proof.
  induction tr1 as [| ev tr1 IH]; [reflexivity|].
  destruct ev; cbn; rewrite IH; reflexivity.
Qed.

Lemma tones_of_app tr1 tr2 : tones_of (tr1 ++ tr2) = tones_of tr1 ++ tones_of tr2.
Proof.
  induction tr1 as [| ev tr1 IH]; [reflexivity|].
  destruct ev; cbn; rewrite IH; reflexivity.
Qed.

Lemma mp_hal_delay_ms_undisturbed ms w :
  env_delays w = [] -> mp_hal_delay_ms ms w = (Normal tt, log (EvDelay ms) w).
Proof. intros H. unfold mp_hal_delay_ms. rewrite H. reflexivity. Qed.

(** A write that is not the last of its call is a retry of the same
    value, so the first value written is the value asked for. *)
Lemma first_tone_of_writes value evs fd r rest :
  tones_of evs = repeat value (List.length evs) ->
  hd_error (tones_of (evs ++ [EvWrite fd value r]) ++ rest) = Some value.
Proof.
  intros H. rewrite tones_of_app, H.
  destruct (List.length evs); reflexivity.
Qed.

(** A note that is released, played with no delay interrupted: the tone
    of the note for 7/8 of its duration, then silence for 1/8 of it. *)
Lemma ev3dev_Speaker_play_note_released note duration freq d w :
  parse_note note duration = Normal (freq, d, true) ->
  env_delays w = [] ->
  exists w' evs,
    ev3dev_Speaker_play_note (mp_obj_new_str note) duration w = (Normal tt, w') /\
    trace w' = trace w ++ evs /\
    delays_of evs = [7 * d ÷ 8; d ÷ 8] /\
    hd_error (tones_of evs) = Some (int_of_double freq) /\
    self w' = self w /\
    env_delays w' = [].
Proof.
  intros Hparse Hdel.
  unfold ev3dev_Speaker_play_note. cbn. unfold lift. rewrite Hparse.
  destruct (set_beep_frequency_spec (int_of_double freq) w)
    as (r1 & w1 & evs1 & Hrun1 & Hw1 & Htr1 & Hts1 & Hds1 & _).
  rewrite Hrun1; cbn.
  assert (Hdel1 : env_delays w1 = []) by (rewrite (wrote_delays _ _ Hw1); exact Hdel).
  rewrite (mp_hal_delay_ms_undisturbed _ _ Hdel1).
  set (w2 := log (EvDelay (7 * d ÷ 8)) w1).
  destruct (set_beep_frequency_spec 0 w2)
    as (r3 & w3 & evs3 & Hrun3 & Hw3 & Htr3 & Hts3 & Hds3 & _).
  rewrite Hrun3; cbn.
  assert (Hdel3 : env_delays w3 = []) by (rewrite (wrote_delays _ _ Hw3); exact Hdel1).
  rewrite (mp_hal_delay_ms_undisturbed _ _ Hdel3).
  eexists. exists ((evs1 ++ [EvWrite (beep_fd (self w)) (int_of_double freq) r1])
                   ++ [EvDelay (7 * d ÷ 8)]
                   ++ (evs3 ++ [EvWrite (beep_fd (self w2)) 0 r3])
                   ++ [EvDelay (d ÷ 8)]).
  split; [reflexivity|].
  split.
  { cbn [trace log]. rewrite Htr3. cbn [trace log w2]. rewrite Htr1.
    rewrite <- !app_assoc. reflexivity. }
  split.
  { rewrite !delays_of_app, Hds1, Hds3. reflexivity. }
  split.
  { rewrite tones_of_app.
    apply (first_tone_of_writes _ _ _ _ _ Hts1). }
  split.
  { cbn. rewrite (wrote_self _ _ Hw3). cbn. apply (wrote_self _ _ Hw1). }
  { cbn. exact Hdel3. }
Qed.

(** One call of [set_beep_frequency], attempt by attempt. *)
Lemma set_beep_frequency_attempts freq w :
  exists r w' k,
    set_beep_frequency freq w = (Normal r, w') /\
    wrote w w' /\
    trace w' = trace w ++ repeat (EvWrite (beep_fd (self w)) freq (-1)) k
               ++ [EvWrite (beep_fd (self w)) freq r] /\
    (r <> -1 -> tone w' = freq).
Proof.
  unfold set_beep_frequency. cbn -[write_retry].
  apply write_retry_attempts.
Qed.










(** ** The battery *)

(** C10.  Whatever the battery driver would report, [percent] returns
    100 and [low] returns [False]. *)
Theorem battery_percent_and_low_are_constant (b : Battery.pbdrv_battery) :
  Battery.battery_percent b = Normal (mp_obj_new_int 100) /\
  Battery.battery_low b = Normal (mp_obj_new_bool false).
Proof. split; reflexivity. Qed.

(** ** Pitch *)

(** The code scales the base by [2 << octave], which is the spec's
    doubling done once more: every note sounds as the spec's note of the
    next octave. *)
Lemma parse_note_frequency spelling base octave duration :
  In (spelling, base) base_frequency ->
  2 <= octave <= 8 ->
  parse_note (spelling ++ digit octave ++ "/4") duration
    = Normal (spec_frequency base (octave + 1), duration ÷ 4, true).
Proof.
  intros Hin Ho.
  assert (Hcases : In octave [2; 3; 4; 5; 6; 7; 8]) by (cbn; lia).
  cbn in Hin, Hcases.
  repeat (destruct Hin as [Hin | Hin]; [inversion Hin; subst spelling base; clear Hin |]);
    try contradiction;
    repeat (destruct Hcases as [<- | Hcases]); try contradiction;
    reflexivity.
Qed.

(** X9.  The two spellings of one pitch (C#/Db, D#/Eb, F#/Gb, G#/Ab,
    A#/Bb) are read alike whatever follows them: the same result when
    the rest of the note is accepted, the same error when it is not. *)
Lemma enharmonic_spellings (rest : string) (duration : Z) :
  parse_note ("C#" ++ rest) duration = parse_note ("Db" ++ rest) duration /\
  parse_note ("D#" ++ rest) duration = parse_note ("Eb" ++ rest) duration /\
  parse_note ("F#" ++ rest) duration = parse_note ("Gb" ++ rest) duration /\
  parse_note ("G#" ++ rest) duration = parse_note ("Ab" ++ rest) duration /\
  parse_note ("A#" ++ rest) duration = parse_note ("Bb" ++ rest) duration.
Proof.
  repeat split; unfold_parser; read_note;
    repeat (case_if; read_note); reflexivity.
Qed.

(** C2, at the note A4: the base of A in octave 0 is 27.50 Hz and the
    spec's four doublings give 440 Hz, but the code multiplies by
    [2 << 4 = 32] and the device is set to 880 Hz. *)
Theorem a4_sounds_an_octave_high :
  In ("A"%string, 27.50%float) base_frequency /\
  spec_frequency 27.50 4 = 440%float /\
  parse_note "A4/4" 2000 = Normal (880%float, 500, true) /\
  tones_of (snd (run (ev3dev_Speaker_play_notes
                        (mp_obj_new_list [mp_obj_new_str "A4/4"]) 120)
                   ready_world))
    = [880; 0; 0].
Proof.
  split; [cbn; tauto|]. repeat split; vm_compute; reflexivity.
Qed.

(** ** Notes the parser rejects, and notes it should reject *)

Ltac to_prop :=
  repeat match goal with
  | H : (_ || _) = true |- _ => apply orb_true_iff in H
  | H : (_ || _) = false |- _ => apply orb_false_iff in H; destruct H
  | H : negb _ = true |- _ => apply negb_true_iff in H
  | H : negb _ = false |- _ => apply negb_false_iff in H
  | H : (_ =? _) = true |- _ => apply Z.eqb_eq in H
  | H : (_ =? _) = false |- _ => apply Z.eqb_neq in H
  | H : (_ <? _) = true |- _ => apply Z.ltb_lt in H
  | H : (_ <? _) = false |- _ => apply Z.ltb_ge in H
  | H : (_ >? _) = true |- _ => rewrite Z.gtb_ltb in H
  | H : (_ >? _) = false |- _ => rewrite Z.gtb_ltb in H
  end.

Lemma note_at_app s1 s2 n :
  note_at (s1 ++ s2) (String.length s1 + n) = note_at s2 n.
Proof.
  induction s1 as [| c s1 IH]; [reflexivity|].
  cbn [String.length Nat.add append]. rewrite note_at_S. exact IH.
Qed.

Lemma note_at_app_0 s1 s2 :
  note_at (s1 ++ s2) (String.length s1) = note_at s2 0.
Proof. rewrite <- (note_at_app s1 s2 0), Nat.add_0_r. reflexivity. Qed.

(** A spelling of the table is read whole, with its frequency, when what
    follows a bare letter is no accidental. *)
Lemma note_name_spelling spelling base rest :
  In (spelling, base) base_frequency ->
  (String.length spelling = 1%nat ->
   note_at rest 0 <> chr "b" /\ note_at rest 0 <> chr "#") ->
  note_name (spelling ++ rest) 0 = Normal (base, String.length spelling).
Proof.
  intros Hin Hacc. cbn in Hin.
  repeat (destruct Hin as [Hin | Hin];
          [inversion Hin; subst spelling base; clear Hin |]);
    try contradiction; try specialize (Hacc eq_refl); cbn in Hacc;
    unfold note_name, switch_accidental; read_note;
    repeat (case_if; read_note); try reflexivity; to_prop; lia.
Qed.

Lemma base_frequency_not_zero spelling base :
  In (spelling, base) base_frequency -> PrimFloat.eqb base 0 = false.
Proof.
  intros Hin. cbn in Hin.
  repeat (destruct Hin as [Hin | Hin];
          [inversion Hin; subst spelling base; reflexivity |]).
  contradiction.
Qed.

Lemma note_octave_bad note freq pos :
  PrimFloat.eqb freq 0 = false ->
  note_at note pos - chr "0" < 2 \/ 8 < note_at note pos - chr "0" ->
  note_octave note freq pos = Raised (ValueError "Missing octave number 2-8").
Proof.
  intros Hf Ho. unfold note_octave. rewrite Hf. cbn.
  case_if; [reflexivity|]. to_prop. cbn in *. lia.
Qed.

Lemma note_octave_good note freq pos :
  PrimFloat.eqb freq 0 = false ->
  2 <= note_at note pos - chr "0" <= 8 ->
  note_octave note freq pos
    = Normal (PrimFloat.mul freq
                (double_of_int (Z.shiftl 2 (note_at note pos - chr "0"))),
              S pos).
Proof.
  intros Hf Ho. unfold note_octave. rewrite Hf. cbn.
  case_if; [|reflexivity]. to_prop. cbn in *. lia.
Qed.

Lemma note_delimiter_bad note pos :
  note_at note pos <> chr "/" ->
  note_delimiter note pos = Raised (ValueError "Missing '/'").
Proof.
  intros H. unfold note_delimiter.
  case_if; [reflexivity|]. to_prop. contradiction.
Qed.

Lemma note_delimiter_good note pos :
  note_at note pos = chr "/" -> note_delimiter note pos = Normal (S pos).
Proof.
  intros H. unfold note_delimiter. rewrite H. reflexivity.
Qed.

Lemma note_fraction_bad note pos :
  note_at note pos - chr "0" < 0 \/ 9 < note_at note pos - chr "0" ->
  note_fraction note pos
    = Raised (ValueError "Missing fractional value 1, 2, 4, 8, etc.").
Proof.
  intros H. unfold note_fraction.
  case_if; [reflexivity|]. to_prop. cbn in *. lia.
Qed.

Lemma note_at_digit n rest : 0 <= n <= 9 -> note_at (digit n ++ rest) 0 = chr "0" + n.
Proof.
  intros Hn. unfold digit. cbn [append]. rewrite note_at_O. unfold chr at 1.
  rewrite N_ascii_embedding.
  - rewrite Z2N.id; [reflexivity | change (chr "0") with 48; lia].
  - change (chr "0") with 48. lia.
Qed.

Lemma note_at_app_1 s1 s2 :
  note_at (s1 ++ s2) (S (String.length s1)) = note_at s2 1.
Proof. rewrite <- (note_at_app s1 s2 1), Nat.add_1_r. reflexivity. Qed.

Lemma note_at_app_2 s1 s2 :
  note_at (s1 ++ s2) (S (S (String.length s1))) = note_at s2 2.
Proof.
  rewrite <- (note_at_app s1 s2 2), Nat.add_succ_r, Nat.add_1_r. reflexivity.
Qed.

(** X4.  A note that does not start with one of A-G and R raises
    [ValueError] "Missing note name A-G or R", whatever follows; so does
    the empty note. *)
Lemma rejects_missing_name note duration :
  (forall c, In c ["A"; "B"; "C"; "D"; "E"; "F"; "G"; "R"]%char ->
             note_at note 0 <> chr c) ->
  parse_note note duration = Raised (ValueError "Missing note name A-G or R").
Proof.
  intros H. unfold parse_note, note_name.
  repeat (case_if;
          [to_prop;
           match goal with
           | Heq : note_at note 0 = chr ?c |- _ =>
               exfalso; apply (H c); [cbn; tauto | exact Heq]
           end |]).
  reflexivity.
Qed.

(** X5.  The spellings Cb, E#, Fb and B# are rejected, each with a
    [ValueError] that names it, whatever follows them (an octave, a
    fraction or nothing). *)
Lemma rejects_forbidden_spellings rest duration :
  parse_note ("Cb" ++ rest) duration = Raised (ValueError "'Cb' is not allowed") /\
  parse_note ("E#" ++ rest) duration = Raised (ValueError "'E#' is not allowed") /\
  parse_note ("Fb" ++ rest) duration = Raised (ValueError "'Fb' is not allowed") /\
  parse_note ("B#" ++ rest) duration = Raised (ValueError "'B#' is not allowed").
Proof. repeat split; reflexivity. Qed.

(** X6.  A spelling of the table followed by anything but a digit from
    2 to 8 (another character, or the end of the note) raises
    [ValueError] "Missing octave number 2-8".  After a bare letter the
    character is taken to be no accidental. *)
Lemma rejects_bad_octave spelling base rest duration :
  In (spelling, base) base_frequency ->
  (String.length spelling = 1%nat ->
   note_at rest 0 <> chr "b" /\ note_at rest 0 <> chr "#") ->
  note_at rest 0 - chr "0" < 2 \/ 8 < note_at rest 0 - chr "0" ->
  parse_note (spelling ++ rest) duration
    = Raised (ValueError "Missing octave number 2-8").
Proof.
  intros Hin Hacc Ho. unfold parse_note.
  rewrite (note_name_spelling _ _ _ Hin Hacc). cbn [bind Monad_outcome].
  rewrite note_octave_bad; [reflexivity | |].
  - eapply base_frequency_not_zero; eassumption.
  - rewrite note_at_app_0. exact Ho.
Qed.

Lemma note_name_before_digit spelling base octave rest :
  In (spelling, base) base_frequency ->
  2 <= octave <= 8 ->
  note_name (spelling ++ digit octave ++ rest) 0
    = Normal (base, String.length spelling).
Proof.
  intros Hin Ho. apply note_name_spelling; [exact Hin|].
  intros _. rewrite note_at_digit by lia.
  change (chr "0") with 48. change (chr "b") with 98. change (chr "#") with 35.
  lia.
Qed.

Lemma note_octave_after_spelling spelling base octave rest :
  In (spelling, base) base_frequency ->
  2 <= octave <= 8 ->
  note_octave (spelling ++ digit octave ++ rest) base (String.length spelling)
    = Normal (PrimFloat.mul base (double_of_int (Z.shiftl 2 octave)),
              S (String.length spelling)).
Proof.
  intros Hin Ho.
  rewrite note_octave_good.
  - rewrite note_at_app_0, note_at_digit by lia.
    replace (chr "0" + octave - chr "0") with octave by lia. reflexivity.
  - eapply base_frequency_not_zero; eassumption.
  - rewrite note_at_app_0, note_at_digit by lia. lia.
Qed.

Lemma note_name_rest rest : note_name ("R" ++ rest) 0 = Normal (0%float, 1%nat).
Proof. reflexivity. Qed.

Lemma note_octave_rest note pos : note_octave note 0 pos = Normal (0%float, pos).
Proof. reflexivity. Qed.

(** X7.  A spelling with its octave, or the rest R, followed by anything
    but '/' (or by nothing) raises [ValueError] "Missing '/'". *)
Lemma rejects_missing_delimiter spelling base octave rest duration :
  In (spelling, base) base_frequency ->
  2 <= octave <= 8 ->
  note_at rest 0 <> chr "/" ->
  parse_note (spelling ++ digit octave ++ rest) duration
    = Raised (ValueError "Missing '/'") /\
  parse_note ("R" ++ rest) duration = Raised (ValueError "Missing '/'").
Proof.
  intros Hin Ho Hd. split.
  - unfold parse_note.
    rewrite (note_name_before_digit _ _ _ _ Hin Ho). cbn [bind Monad_outcome].
    rewrite (note_octave_after_spelling _ _ _ _ Hin Ho). cbn [bind Monad_outcome].
    rewrite note_delimiter_bad; [reflexivity|].
    rewrite note_at_app_1. exact Hd.
  - unfold parse_note.
    rewrite note_name_rest. cbn [bind Monad_outcome].
    rewrite note_octave_rest. cbn [bind Monad_outcome].
    rewrite note_delimiter_bad; [reflexivity|]. exact Hd.
Qed.

(** X8.  A spelling with its octave and '/', or "R/", followed by
    anything but a decimal digit (or by nothing) raises [ValueError]
    "Missing fractional value 1, 2, 4, 8, etc.". *)
Lemma rejects_bad_fraction spelling base octave rest duration :
  In (spelling, base) base_frequency ->
  2 <= octave <= 8 ->
  note_at rest 0 - chr "0" < 0 \/ 9 < note_at rest 0 - chr "0" ->
  parse_note (spelling ++ digit octave ++ "/" ++ rest) duration
    = Raised (ValueError "Missing fractional value 1, 2, 4, 8, etc.") /\
  parse_note ("R/" ++ rest) duration
    = Raised (ValueError "Missing fractional value 1, 2, 4, 8, etc.").
Proof.
  intros Hin Ho Hd. split.
  - unfold parse_note.
    rewrite (note_name_before_digit _ _ _ _ Hin Ho). cbn [bind Monad_outcome].
    rewrite (note_octave_after_spelling _ _ _ _ Hin Ho). cbn [bind Monad_outcome].
    rewrite note_delimiter_good by (rewrite note_at_app_1; reflexivity).
    cbn [bind Monad_outcome].
    rewrite note_fraction_bad; [reflexivity|].
    rewrite note_at_app_2. exact Hd.
  - unfold parse_note.
    change ("R/" ++ rest)%string with ("R" ++ ("/" ++ rest))%string.
    rewrite (note_name_rest ("/" ++ rest)). cbn [bind Monad_outcome].
    rewrite note_octave_rest. cbn [bind Monad_outcome].
    rewrite note_delimiter_good by reflexivity. cbn [bind Monad_outcome].
    rewrite note_fraction_bad; [reflexivity|]. exact Hd.
Qed.

(** C3, at the notes it fails on.  The fraction "0" passes the test
    [fraction < 0 || fraction > 9], so "C2/0" is no [ValueError]: the
    code goes on to [duration /= fraction] and divides by zero, with
    nothing written to the device.  In a melody this ends the call with
    the tone of the note before still on.  What follows a complete note
    is never looked at: "C4/4x" is read as "C4/4". *)
Theorem zero_fraction_is_not_rejected (duration : Z) (w : world) :
  parse_note "C2/0" duration = Undefined DivisionByZero /\
  parse_note "C2/00" duration = Undefined DivisionByZero /\
  parse_note "R/0" duration = Undefined DivisionByZero /\
  ev3dev_Speaker_play_note (mp_obj_new_str "C2/0") duration w
    = (Undefined DivisionByZero, w) /\
  run (ev3dev_Speaker_play_notes
         (mp_obj_new_list [mp_obj_new_str "C4/4_"; mp_obj_new_str "C2/0"]) 120)
      ready_world
    = (Undefined DivisionByZero, [EvWrite 3 523 16; EvDelay 500]) /\
  parse_note "C4/4x" duration = parse_note "C4/4" duration /\
  came_back (parse_note "C4/4x" duration).
Proof.
  do 4 (split; [reflexivity|]).
  split; [vm_compute; reflexivity|].
  split; [reflexivity|].
  exact I.
Qed.

(** ** A melody that is cut short by a division *)

(** C6.  [play_notes] does not always leave the device silent.  A note
    with a tie followed by a note with the fraction 0 (which the parser
    does not reject): the frequency of the first note is written, its
    delay goes by, and the second note divides by zero inside the
    protected block.  Neither the write of 0 at the end of the block
    nor the one of the handler is reached: the last event is the delay,
    no 0 has been written, and the device still sounds if the write
    went through. *)
Theorem zero_fraction_leaves_the_tone_on
    (note bad : string) (tempo : Z) (freq : float) (d : Z) (w : world) :
  tempo <> 0 ->
  parse_note note (4 * 60 * 1000 ÷ tempo) = Normal (freq, d, false) ->
  parse_note bad (4 * 60 * 1000 ÷ tempo) = Undefined DivisionByZero ->
  env_delays w = [] ->
  exists w' k r,
    ev3dev_Speaker_play_notes
      (mp_obj_new_list [mp_obj_new_str note; mp_obj_new_str bad]) tempo w
      = (Undefined DivisionByZero, w') /\
    trace w' = trace w
      ++ repeat (EvWrite (beep_fd (self w)) (int_of_double freq) (-1)) k
      ++ [EvWrite (beep_fd (self w)) (int_of_double freq) r; EvDelay d] /\
    (r <> -1 -> tone w' = int_of_double freq) /\
    ~ silenced w w'.
Proof.
  intros Htempo Hnote Hbad Hdel.
  destruct (set_beep_frequency_attempts (int_of_double freq) w)
    as (r & w1 & k & Hrun1 & Hw1 & Htr1 & Hok).
  assert (Hdel1 : env_delays w1 = []) by (rewrite (wrote_delays _ _ Hw1); exact Hdel).
  exists (log (EvDelay d) w1), k, r.
  assert (Htr : trace (log (EvDelay d) w1) = trace w
            ++ repeat (EvWrite (beep_fd (self w)) (int_of_double freq) (-1)) k
            ++ [EvWrite (beep_fd (self w)) (int_of_double freq) r; EvDelay d]).
  { cbn [trace log]. rewrite Htr1, <- !app_assoc. reflexivity. }
  split; [| split; [exact Htr | split; [exact Hok |]]].
  - unfold ev3dev_Speaker_play_notes, lift, c_div.
    apply Z.eqb_neq in Htempo. rewrite Htempo.
    cbn -[set_beep_frequency mp_hal_delay_ms parse_note].
    unfold lift. rewrite Hnote.
    cbn -[set_beep_frequency mp_hal_delay_ms parse_note]. rewrite Hrun1.
    rewrite (mp_hal_delay_ms_undisturbed _ _ Hdel1), Hbad.
    reflexivity.
  - intros (evs & r0 & Hsil & _).
    rewrite Htr in Hsil. apply app_inv_head in Hsil.
    change [EvWrite (beep_fd (self w)) (int_of_double freq) r; EvDelay d]
      with ([EvWrite (beep_fd (self w)) (int_of_double freq) r] ++ [EvDelay d])
      in Hsil.
    rewrite app_assoc in Hsil.
    apply app_inj_tail in Hsil. destruct Hsil as [_ Hlast]. discriminate Hlast.
Qed.

(** A run of C6 on a device that works: the tied C4 still sounds when
    the fraction 0 of the second note ends the call. *)
Lemma zero_fraction_leaves_the_tone_on_witness :
  run (ev3dev_Speaker_play_notes
         (mp_obj_new_list [mp_obj_new_str "C4/4_"; mp_obj_new_str "C2/0"]) 120)
      ready_world
    = (Undefined DivisionByZero, [EvWrite 3 523 16; EvDelay 500]) /\
  tone (snd (ev3dev_Speaker_play_notes
               (mp_obj_new_list [mp_obj_new_str "C4/4_"; mp_obj_new_str "C2/0"]) 120
               ready_world)) = 523.
Proof.
  destruct (zero_fraction_leaves_the_tone_on "C4/4_" "C2/0" 120
              (PrimFloat.mul 16.35 (double_of_int 32)) 500 ready_world
              ltac:(lia) eq_refl eq_refl eq_refl)
    as (w' & k & r & Hrun & Htr & Htone & _).
  unfold run. rewrite Hrun. cbn [fst snd].
  vm_compute in Hrun. inversion Hrun. split; reflexivity.
Defined.

(** ** A speaker without its device *)

(** C4, as amended.  When [open] fails in the constructor, the failure
    is reported once with [perror], the speaker is returned all the
    same with descriptor -1, and a second construction does nothing.
    From then on a write of a tone fails with [EBADF] and leaves the
    device alone, and [beep] turns that failure into an [OSError] on
    every call, before any delay. *)
Theorem beep_after_failed_open (w : world) :
  intialized (self w) = false ->
  fst (env_open w) = -1 ->
  exists w1,
    ev3dev_Speaker_make_new w = (Normal pb_type_ev3dev_Speaker, w1) /\
    trace w1 = trace w ++
      [EvOpen (-1);
       EvPerror "Failed to open input dev for sound, beep will not work"] /\
    beep_fd (self w1) = -1 /\
    ev3dev_Speaker_make_new w1 = (Normal pb_type_ev3dev_Speaker, w1) /\
    forall w2 frequency duration,
      beep_fd (self w2) = -1 ->
      set_beep_frequency frequency w2 =
        (Normal (-1), with_errno EBADF (log (EvWrite (-1) frequency (-1)) w2)) /\
      ev3dev_Speaker_beep frequency duration w2 =
        (Raised (OSError EBADF),
         with_errno EBADF (log (EvWrite (-1) frequency (-1)) w2)).
Proof.
  intros Hinit Hopen.
  destruct w as [s e t tr [fd en] ws ds sp ps se]. cbn in Hinit, Hopen. subst fd.
  eexists. split.
  { unfold ev3dev_Speaker_make_new, sys_open. cbn. rewrite Hinit. cbn.
    reflexivity. }
  cbn. split; [rewrite <- app_assoc; reflexivity|].
  split; [reflexivity|].
  split; [reflexivity|].
  intros w2 frequency duration Hfd.
  assert (Hw : set_beep_frequency frequency w2 =
               (Normal (-1),
                with_errno EBADF (log (EvWrite (-1) frequency (-1)) w2))).
  { rewrite set_beep_frequency_closed by lia. rewrite Hfd. reflexivity. }
  split; [exact Hw|].
  unfold ev3dev_Speaker_beep. cbn. rewrite Hw. reflexivity.
Qed.

(** A run of C4: construction without the device, then a beep. *)
Lemma beep_after_failed_open_witness :
  run (ev3dev_Speaker_make_new ;; ev3dev_Speaker_beep 500 100) deviceless_world
    = (Raised (OSError EBADF),
       [EvOpen (-1);
        EvPerror "Failed to open input dev for sound, beep will not work";
        EvWrite (-1) 500 (-1)]).
Proof.
  destruct (beep_after_failed_open deviceless_world eq_refl eq_refl)
    as (w1 & Hnew & Htr & Hfd & _ & Hbeep).
  destruct (Hbeep w1 500 100 Hfd) as [_ Hrun].
  unfold run. cbn -[ev3dev_Speaker_make_new ev3dev_Speaker_beep].
  rewrite Hnew, Hrun. cbn. rewrite Htr. reflexivity.
Defined.

(** C4 as it is stated fails: after a failed [open], [beep] is no silent
    no-op, it raises [OSError] with [EBADF]. *)
Lemma beep_after_failed_open_counterexample :
  fst ((ev3dev_Speaker_make_new ;; ev3dev_Speaker_beep 500 100) deviceless_world)
    = Raised (OSError EBADF) /\
  fst ((ev3dev_Speaker_make_new ;; ev3dev_Speaker_beep 500 100) deviceless_world)
    <> Normal mp_const_none.
Proof. split; [reflexivity | discriminate]. Qed.

(** ** Waiting for the helper processes *)

#[local] Arguments MICROPY_EVENT_POLL_HOOK : simpl never.

Lemma play_file_wait_is_wait_loop n : forall exception w,
  play_file_wait n Aplay exception w
    = wait_loop aplay_busy [Aplay] n exception w.
Proof.
  induction n as [| n IH]; intros exception w; cbn;
    destruct (MICROPY_EVENT_POLL_HOOK w) as [[[] | e | u |] w1]; cbn;
    try reflexivity;
    destruct (aplay_busy _); try reflexivity; apply IH.
Qed.

Lemma say_wait_is_wait_loop n : forall exception w,
  say_wait n Espeak Aplay exception w
    = wait_loop say_busy [Espeak; Aplay] n exception w.
Proof.
  induction n as [| n IH]; intros exception w; cbn;
    destruct (MICROPY_EVENT_POLL_HOOK w) as [[[] | e | u |] w1]; cbn;
    try reflexivity; unfold say_busy; cbn;
    destruct (espeak_busy _ || aplay_busy _ || splice_busy _);
    try reflexivity; apply IH.
Qed.

Lemma aplay_busy_dispatched cs : forall s,
  aplay_busy (fold_left dispatch cs s)
    = aplay_busy s && negb (existsb is_aplay_exit cs).
Proof.
  induction cs as [| c cs IH]; intros s; cbn [fold_left existsb].
  - cbn. rewrite andb_true_r. reflexivity.
  - rewrite IH. destruct c; cbn; try reflexivity.
    rewrite andb_false_r. reflexivity.
Qed.

Lemma espeak_busy_dispatched cs : forall s,
  espeak_busy (fold_left dispatch cs s)
    = espeak_busy s && negb (existsb is_espeak_exit cs).
Proof.
  induction cs as [| c cs IH]; intros s; cbn [fold_left existsb].
  - cbn. rewrite andb_true_r. reflexivity.
  - rewrite IH. destruct c; cbn; try reflexivity.
    rewrite andb_false_r. reflexivity.
Qed.

Lemma splice_busy_dispatched cs : forall s,
  splice_busy (fold_left dispatch cs s)
    = splice_busy s && negb (existsb is_splice_end cs).
Proof.
  induction cs as [| c cs IH]; intros s; cbn [fold_left existsb].
  - cbn. rewrite andb_true_r. reflexivity.
  - rewrite IH. destruct c; cbn; try reflexivity.
    rewrite andb_false_r. reflexivity.
Qed.

Lemma aplay_busy_after_rounds steps : forall s,
  aplay_busy (after_rounds s steps)
    = aplay_busy s && negb (dispatches is_aplay_exit steps).
Proof.
  unfold after_rounds, dispatches.
  induction steps as [| st steps IH]; intros s; cbn [fold_left existsb].
  - cbn. rewrite andb_true_r. reflexivity.
  - rewrite IH, aplay_busy_dispatched, negb_orb, andb_assoc. reflexivity.
Qed.

Lemma espeak_busy_after_rounds steps : forall s,
  espeak_busy (after_rounds s steps)
    = espeak_busy s && negb (dispatches is_espeak_exit steps).
Proof.
  unfold after_rounds, dispatches.
  induction steps as [| st steps IH]; intros s; cbn [fold_left existsb].
  - cbn. rewrite andb_true_r. reflexivity.
  - rewrite IH, espeak_busy_dispatched, negb_orb, andb_assoc. reflexivity.
Qed.

Lemma splice_busy_after_rounds steps : forall s,
  splice_busy (after_rounds s steps)
    = splice_busy s && negb (dispatches is_splice_end steps).
Proof.
  unfold after_rounds, dispatches.
  induction steps as [| st steps IH]; intros s; cbn [fold_left existsb].
  - cbn. rewrite andb_true_r. reflexivity.
  - rewrite IH, splice_busy_dispatched, negb_orb, andb_assoc. reflexivity.
Qed.

Lemma aplay_busy_lowered_only : lowered_only aplay_busy.
Proof.
  intros steps s H. rewrite aplay_busy_after_rounds in H.
  apply andb_true_iff in H. tauto.
Qed.

Lemma say_busy_lowered_only : lowered_only say_busy.
Proof.
  intros steps s. unfold say_busy.
  rewrite espeak_busy_after_rounds, aplay_busy_after_rounds,
    splice_busy_after_rounds.
  destruct (espeak_busy s), (aplay_busy s), (splice_busy s); cbn; auto.
Qed.

Lemma poll_hook_step w st rest :
  env_polls w = st :: rest ->
  MICROPY_EVENT_POLL_HOOK w =
    (match pending_exception st with
     | Some e => Raised e
     | None => Normal tt
     end,
     with_self (fold_left dispatch (dispatched st) (self w))
       (with_polls rest (log EvPoll w))).
Proof.
  intros H. unfold MICROPY_EVENT_POLL_HOOK. rewrite H.
  destruct (pending_exception st); reflexivity.
Qed.

Lemma force_exit_all_spec victims : forall w,
  exists w',
    force_exit_all victims w = (Normal tt, w') /\
    self w' = self w /\
    trace w' = trace w ++ map EvForceExit victims /\
    env_polls w' = env_polls w /\
    env_stderr w' = env_stderr w.
Proof.
  induction victims as [| p victims IH]; intros w.
  - exists w. cbn. rewrite app_nil_r. auto.
  - destruct (IH (log (EvForceExit p) w)) as (w' & Hrun & Hs & Ht & Hp & He).
    exists w'. cbn. unfold g_subprocess_force_exit, modify_world. cbn.
    rewrite Hrun. cbn in *.
    rewrite Ht, <- app_assoc. auto.
Qed.

(** One round of the loop. *)
Lemma wait_round victims e0 w st rest :
  env_polls w = st :: rest ->
  exists w1,
    catch (MICROPY_EVENT_POLL_HOOK ;; ret e0)
          (fun e => force_exit_all victims ;; ret (Some e)) w
      = (Normal (last_exception e0 [st]), w1) /\
    self w1 = fold_left dispatch (dispatched st) (self w) /\
    trace w1 = trace w ++ round victims st /\
    env_polls w1 = rest /\
    env_stderr w1 = env_stderr w.
Proof.
  intros Hpolls. cbn. rewrite (poll_hook_step _ _ _ Hpolls).
  unfold round. destruct (pending_exception st) as [e |]; cbn.
  - match goal with
    | |- context [force_exit_all victims ?w0] =>
        destruct (force_exit_all_spec victims w0) as (w1 & Hrun & Hs & Ht & Hp & He)
    end.
    exists w1. rewrite Hrun. cbn in *.
    rewrite Ht, <- app_assoc. auto.
  - eexists. split; [reflexivity|]. cbn. auto.
Qed.

(** The loop runs for as many rounds as it takes to see the busy flags
    down, and no longer: it consumes the rounds [pre] after which the
    flags are still up and the round [step] that lowers the last one.
    Exceptions on the way do not end it; the last one is kept. *)
Lemma wait_loop_spec busy victims :
  lowered_only busy ->
  forall pre step post n e0 w,
    env_polls w = pre ++ step :: post ->
    (List.length pre <= n)%nat ->
    busy (after_rounds (self w) pre) = true ->
    busy (after_rounds (self w) (pre ++ [step])) = false ->
    exists w',
      wait_loop busy victims n e0 w
        = (Normal (last_exception e0 (pre ++ [step])), w') /\
      self w' = after_rounds (self w) (pre ++ [step]) /\
      trace w' = trace w ++ flat_map (round victims) (pre ++ [step]) /\
      env_polls w' = post /\
      env_stderr w' = env_stderr w.
Proof.
  intros Hmono.
  induction pre as [| st pre IH]; intros step post n e0 w Hpolls Hn Hbusy Hdone.
  - destruct (wait_round victims e0 w step post Hpolls)
      as (w1 & Hrun & Hs & Ht & Hp & He).
    exists w1.
    assert (Hb : busy (self w1) = false) by (rewrite Hs; exact Hdone).
    split.
    { destruct n; cbn [wait_loop];
        rewrite (bind_M_normal _ _ _ _ _ Hrun); cbn -[last_exception];
        rewrite Hb; reflexivity. }
    cbn [app flat_map]. rewrite app_nil_r. auto.
  - destruct n as [| n]; [cbn in Hn; lia|].
    destruct (wait_round victims e0 w st (pre ++ step :: post) Hpolls)
      as (w1 & Hrun & Hs & Ht & Hp & He).
    assert (Hb : busy (self w1) = true).
    { rewrite Hs. apply (Hmono pre). exact Hbusy. }
    destruct (IH step post n (last_exception e0 [st]) w1 Hp
                ltac:(cbn in Hn; lia)) as (w' & Hrun' & Hs' & Ht' & Hp' & He').
    { rewrite Hs. exact Hbusy. }
    { rewrite Hs. exact Hdone. }
    exists w'. split.
    { cbn [wait_loop]. rewrite (bind_M_normal _ _ _ _ _ Hrun). cbn -[last_exception].
      rewrite Hb. rewrite Hrun'. reflexivity. }
    split; [rewrite Hs', Hs; reflexivity|].
    split; [rewrite Ht', Ht; cbn [app flat_map]; rewrite <- app_assoc; reflexivity|].
    split; [exact Hp'|]. congruence.
Qed.

(** As long as a flag is up after every round the environment offers,
    the loop does not come back. *)
Lemma wait_loop_keeps_waiting busy victims :
  lowered_only busy ->
  forall polls n e0 w,
    env_polls w = polls ->
    busy (after_rounds (self w) polls) = true ->
    exists w', wait_loop busy victims n e0 w = (Waiting, w').
Proof.
  intros Hmono.
  induction polls as [| st polls IH]; intros n e0 w Hpolls Hbusy.
  - exists w. destruct n; cbn; unfold MICROPY_EVENT_POLL_HOOK;
      rewrite Hpolls; reflexivity.
  - destruct (wait_round victims e0 w st polls Hpolls)
      as (w1 & Hrun & Hs & Ht & Hp & He).
    assert (Hb : busy (self w1) = true).
    { rewrite Hs. apply (Hmono polls). exact Hbusy. }
    destruct n as [| n].
    + exists w1. cbn [wait_loop]. rewrite (bind_M_normal _ _ _ _ _ Hrun). cbn -[last_exception].
      rewrite Hb. reflexivity.
    + destruct (IH n (last_exception e0 [st]) w1 Hp) as (w' & Hrun').
      { rewrite Hs. exact Hbusy. }
      exists w'. cbn [wait_loop]. rewrite (bind_M_normal _ _ _ _ _ Hrun). cbn -[last_exception].
      rewrite Hb. exact Hrun'.
Qed.

(** ** Playing a file and saying a text *)

#[local] Arguments play_file_wait : simpl never.
#[local] Arguments say_wait : simpl never.
#[local] Arguments play_file_finish : simpl never.
#[local] Arguments say_finish : simpl never.

Lemma ev3dev_Speaker_play_file_started path w :
  env_spawn w Aplay = None ->
  ev3dev_Speaker_play_file (mp_obj_new_str path) w
    = (exception <- wait_loop aplay_busy [Aplay] (List.length (env_polls w)) None ;;
       play_file_finish Aplay exception) (play_file_started path w).
Proof.
  intros Hspawn. unfold ev3dev_Speaker_play_file.
  cbn. unfold g_subprocess_new. cbn. rewrite Hspawn. cbn.
  rewrite play_file_wait_is_wait_loop. reflexivity.
Qed.

Lemma ev3dev_Speaker_say_started text w :
  env_spawn w Espeak = None ->
  env_spawn w Aplay = None ->
  ev3dev_Speaker_say (mp_obj_new_str text) w
    = (exception <- wait_loop say_busy [Espeak; Aplay]
                      (List.length (env_polls w)) None ;;
       say_finish Espeak Aplay exception) (say_started text w).
Proof.
  intros Hespeak Haplay. unfold ev3dev_Speaker_say.
  cbn. unfold g_subprocess_new. cbn. rewrite Hespeak. cbn. rewrite Haplay. cbn.
  rewrite say_wait_is_wait_loop. reflexivity.
Qed.

Lemma dispatches_app f steps1 steps2 :
  dispatches f (steps1 ++ steps2) = dispatches f steps1 || dispatches f steps2.
Proof. unfold dispatches. apply existsb_app. Qed.

Lemma say_busy_armed steps s :
  say_busy (after_rounds (say_armed s) steps) = negb (all_done steps).
Proof.
  unfold say_busy, all_done.
  rewrite espeak_busy_after_rounds, aplay_busy_after_rounds,
    splice_busy_after_rounds. cbn.
  rewrite !negb_andb. reflexivity.
Qed.

Lemma aplay_busy_armed steps s :
  aplay_busy (after_rounds (play_file_armed s) steps)
    = negb (dispatches is_aplay_exit steps).
Proof. rewrite aplay_busy_after_rounds. reflexivity. Qed.

(** The loop of [play_file] on a script that brings the exit of aplay
    in the round [step] and not before. *)
Lemma play_file_loop path w pre step post :
  env_polls w = pre ++ step :: post ->
  dispatches is_aplay_exit pre = false ->
  dispatches is_aplay_exit [step] = true ->
  exists w1,
    wait_loop aplay_busy [Aplay] (List.length (env_polls w)) None
        (play_file_started path w)
      = (Normal (last_exception None (pre ++ [step])), w1) /\
    self w1 = after_rounds (play_file_armed (self w)) (pre ++ [step]) /\
    trace w1 = trace w
      ++ [EvSpawn Aplay ["aplay"; "-q"; path]%string; EvWaitCheck Aplay]
      ++ flat_map (round [Aplay]) (pre ++ [step]) /\
    env_polls w1 = post /\
    env_stderr w1 = env_stderr w.
Proof.
  intros Hpolls Hpre Hstep.
  destruct (wait_loop_spec aplay_busy [Aplay] aplay_busy_lowered_only
              pre step post (List.length (env_polls w)) None
              (play_file_started path w))
    as (w1 & Hrun & Hs & Ht & Hp & He).
  - exact Hpolls.
  - rewrite Hpolls, length_app. lia.
  - cbn [self play_file_started log with_self].
    rewrite aplay_busy_armed, Hpre. reflexivity.
  - cbn [self play_file_started log with_self].
    rewrite aplay_busy_armed, dispatches_app, Hstep, orb_true_r. reflexivity.
  - exists w1. split; [exact Hrun|]. split; [exact Hs|].
    split; [|auto].
    rewrite Ht. cbn [trace play_file_started log with_self].
    rewrite <- !app_assoc. reflexivity.
Qed.

Lemma say_loop text w pre step post :
  env_polls w = pre ++ step :: post ->
  all_done pre = false ->
  all_done (pre ++ [step]) = true ->
  exists w1,
    wait_loop say_busy [Espeak; Aplay] (List.length (env_polls w)) None
        (say_started text w)
      = (Normal (last_exception None (pre ++ [step])), w1) /\
    self w1 = after_rounds (say_armed (self w)) (pre ++ [step]) /\
    trace w1 = trace (say_started text w)
      ++ flat_map (round [Espeak; Aplay]) (pre ++ [step]) /\
    env_polls w1 = post /\
    env_stderr w1 = env_stderr w.
Proof.
  intros Hpolls Hpre Hstep.
  destruct (wait_loop_spec say_busy [Espeak; Aplay] say_busy_lowered_only
              pre step post (List.length (env_polls w)) None
              (say_started text w))
    as (w1 & Hrun & Hs & Ht & Hp & He).
  - exact Hpolls.
  - rewrite Hpolls, length_app. lia.
  - cbn [self say_started log with_self].
    rewrite say_busy_armed, Hpre. reflexivity.
  - cbn [self say_started log with_self].
    rewrite say_busy_armed, Hstep. reflexivity.
  - exists w1. auto.
Qed.

(** Until the exit of aplay is dispatched, [play_file] does not come
    back, interrupted or not; [say] waits for all three notifications. *)
Lemma play_file_waits_for_exit path w :
  env_spawn w Aplay = None ->
  dispatches is_aplay_exit (env_polls w) = false ->
  fst (ev3dev_Speaker_play_file (mp_obj_new_str path) w) = Waiting.
Proof.
  intros Hspawn Hnone.
  destruct (wait_loop_keeps_waiting aplay_busy [Aplay] aplay_busy_lowered_only
              (env_polls w) (List.length (env_polls w)) None
              (play_file_started path w) eq_refl) as (w' & Hrun).
  - cbn [self play_file_started log with_self].
    rewrite aplay_busy_armed, Hnone. reflexivity.
  - rewrite (ev3dev_Speaker_play_file_started _ _ Hspawn).
    cbn. rewrite Hrun. reflexivity.
Qed.

Lemma say_waits_for_all text w :
  env_spawn w Espeak = None ->
  env_spawn w Aplay = None ->
  all_done (env_polls w) = false ->
  fst (ev3dev_Speaker_say (mp_obj_new_str text) w) = Waiting.
Proof.
  intros Hespeak Haplay Hnone.
  destruct (wait_loop_keeps_waiting say_busy [Espeak; Aplay] say_busy_lowered_only
              (env_polls w) (List.length (env_polls w)) None
              (say_started text w) eq_refl) as (w' & Hrun).
  - cbn [self say_started log with_self].
    rewrite say_busy_armed, Hnone. reflexivity.
  - rewrite (ev3dev_Speaker_say_started _ _ Hespeak Haplay).
    cbn. rewrite Hrun. reflexivity.
Qed.

Lemma play_file_finish_interrupted e w :
  play_file_finish Aplay (Some e) w = (Raised e, log (EvUnref Aplay) w).
Proof. reflexivity. Qed.

Lemma say_finish_interrupted e w :
  say_finish Espeak Aplay (Some e) w
    = (Raised e, log (EvUnref Espeak) (log (EvUnref Aplay) w)).
Proof. reflexivity. Qed.

(** A round that raised forced the exit of every process. *)
Lemma interrupted_round_forces_exit victims p steps : forall e0 e,
  In p victims ->
  last_exception e0 steps = Some e ->
  e0 = None ->
  In (EvForceExit p) (flat_map (round victims) steps).
Proof.
  induction steps as [| st steps IH]; intros e0 e Hp Hlast He0.
  - cbn in Hlast. congruence.
  - cbn [flat_map]. apply in_or_app.
    cbn [last_exception] in Hlast. unfold round.
    destruct (pending_exception st) as [e1 |].
    + left. right. apply in_map. exact Hp.
    + right. subst e0. eapply IH; eauto.
Qed.

(** C5.  A call of [play_file] or [say] whose wait is interrupted: the
    environment brings the last outstanding notification (the exit of
    aplay; for [say] also the exit of espeak and the end of the splice)
    in the round [step] and not in the rounds [pre] before it, and [e]
    is the last exception these rounds raise.  Then every round that
    raised forced the exit of every helper process, the loop still ran
    through all of [pre] and [step], the processes were released after
    it, and the call raises [e], whatever the processes reported. *)
Theorem interrupted_call_drains_and_reraises (path text : string) (w : world)
    (pre : list poll_step) (step : poll_step) (post : list poll_step) (e : exc) :
  env_polls w = pre ++ step :: post ->
  last_exception None (pre ++ [step]) = Some e ->
  (env_spawn w Aplay = None ->
   dispatches is_aplay_exit pre = false ->
   dispatches is_aplay_exit [step] = true ->
   exists w',
     ev3dev_Speaker_play_file (mp_obj_new_str path) w = (Raised e, w') /\
     trace w' = trace w
       ++ [EvSpawn Aplay ["aplay"; "-q"; path]%string; EvWaitCheck Aplay]
       ++ flat_map (round [Aplay]) (pre ++ [step])
       ++ [EvUnref Aplay] /\
     In (EvForceExit Aplay) (flat_map (round [Aplay]) (pre ++ [step])) /\
     env_polls w' = post /\
     aplay_busy (self w') = false) /\
  (env_spawn w Espeak = None ->
   env_spawn w Aplay = None ->
   all_done pre = false ->
   all_done (pre ++ [step]) = true ->
   exists w',
     ev3dev_Speaker_say (mp_obj_new_str text) w = (Raised e, w') /\
     trace w' = trace w
       ++ [EvSpawn Espeak
             ["espeak"; "-a"; "200"; "-s"; "100"; "-v"; "en"; "--stdout"; text]%string;
           EvSpawn Aplay ["aplay"; "-q"]%string;
           EvWaitCheck Espeak; EvWaitCheck Aplay; EvSplice]
       ++ flat_map (round [Espeak; Aplay]) (pre ++ [step])
       ++ [EvUnref Aplay; EvUnref Espeak] /\
     In (EvForceExit Espeak) (flat_map (round [Espeak; Aplay]) (pre ++ [step])) /\
     In (EvForceExit Aplay) (flat_map (round [Espeak; Aplay]) (pre ++ [step])) /\
     env_polls w' = post /\
     say_busy (self w') = false).
Proof.
  intros Hpolls Hlast. split.
  - intros Hspawn Hpre Hstep.
    destruct (play_file_loop path w pre step post Hpolls Hpre Hstep)
      as (w1 & Hrun & Hs & Ht & Hp & He).
    exists (log (EvUnref Aplay) w1).
    split.
    { rewrite (ev3dev_Speaker_play_file_started _ _ Hspawn).
      rewrite (bind_M_normal _ _ _ _ _ Hrun), Hlast.
      apply play_file_finish_interrupted. }
    split.
    { cbn [trace log]. rewrite Ht, <- !app_assoc. reflexivity. }
    split.
    { eapply interrupted_round_forces_exit; [left; reflexivity | exact Hlast | reflexivity]. }
    split; [exact Hp|].
    cbn [self log]. rewrite Hs, aplay_busy_armed, dispatches_app, Hstep, orb_true_r.
    reflexivity.
  - intros Hespeak Haplay Hpre Hstep.
    destruct (say_loop text w pre step post Hpolls Hpre Hstep)
      as (w1 & Hrun & Hs & Ht & Hp & He).
    exists (log (EvUnref Espeak) (log (EvUnref Aplay) w1)).
    split.
    { rewrite (ev3dev_Speaker_say_started _ _ Hespeak Haplay).
      rewrite (bind_M_normal _ _ _ _ _ Hrun), Hlast.
      apply say_finish_interrupted. }
    split.
    { cbn [trace log]. rewrite Ht. cbn [trace say_started log with_self].
      rewrite <- !app_assoc. reflexivity. }
    split.
    { eapply interrupted_round_forces_exit;
        [left; reflexivity | exact Hlast | reflexivity]. }
    split.
    { eapply interrupted_round_forces_exit;
        [right; left; reflexivity | exact Hlast | reflexivity]. }
    split; [exact Hp|].
    cbn [self log]. rewrite Hs, say_busy_armed, Hstep. reflexivity.
Qed.

(** A run of C5: [say] is interrupted in the second round and aplay
    ends in the fourth. *)
Lemma interrupted_call_drains_and_reraises_witness :
  run (ev3dev_Speaker_say (mp_obj_new_str "hi")) interrupted_world
    = (Raised KeyboardInterrupt,
       [EvSpawn Espeak
          ["espeak"; "-a"; "200"; "-s"; "100"; "-v"; "en"; "--stdout"; "hi"]%string;
        EvSpawn Aplay ["aplay"; "-q"]%string;
        EvWaitCheck Espeak; EvWaitCheck Aplay; EvSplice;
        EvPoll; EvPoll; EvForceExit Espeak; EvForceExit Aplay; EvPoll; EvPoll;
        EvUnref Aplay; EvUnref Espeak]) /\
  fst (ev3dev_Speaker_play_file (mp_obj_new_str "hi.wav") interrupted_world)
    = Raised KeyboardInterrupt.
Proof.
  destruct (interrupted_call_drains_and_reraises "hi.wav" "hi" interrupted_world
              (firstn 3 (env_polls interrupted_world))
              (mk_poll [AplayExited (Some "Child process killed by signal 9"%string)] None)
              [mk_poll [] None] KeyboardInterrupt eq_refl eq_refl)
    as [Hfile Hsay].
  destruct (Hfile eq_refl eq_refl eq_refl) as (w1 & Hrun1 & _).
  destruct (Hsay eq_refl eq_refl eq_refl eq_refl) as (w2 & Hrun2 & Htr2 & _).
  unfold run. rewrite Hrun1, Hrun2. cbn [fst]. rewrite Htr2.
  split; reflexivity.
Defined.

(** ** The text of a failure *)

Lemma failure_message_short p message w :
  (List.length (snd (env_stderr w p)) < 4096)%nat ->
  failure_message p (Some message) w
    = (Normal (diagnostic (env_stderr w p) message), w).
Proof.
  intros Hlen. unfold failure_message, diagnostic.
  destruct (env_stderr w p) as [ok data]. cbn [snd] in Hlen.
  rewrite firstn_all2 by lia.
  destruct data as [| c data].
  - cbn. rewrite andb_false_r. reflexivity.
  - assert (H0 : (Z.of_nat (List.length (c :: data)) =? 0) = false)
      by (apply Z.eqb_neq; cbn [List.length]; lia).
    assert (H1 : (Z.of_nat (List.length (c :: data)) <? 4096) = true)
      by (apply Z.ltb_lt; lia).
    rewrite H0, H1. destruct ok; reflexivity.
Qed.

(** A read that fills the buffer puts the NUL behind it. *)
Lemma failure_message_overrun p message w data :
  env_stderr w p = (true, data) ->
  (4096 <= List.length data)%nat ->
  failure_message p (Some message) w = (Undefined BufferOverrun, w).
Proof.
  intros Herr Hlen. unfold failure_message. rewrite Herr.
  rewrite length_firstn, Nat.min_l by exact Hlen.
  reflexivity.
Qed.

Lemma aplay_result_dispatched cs : forall s,
  existsb is_aplay_exit cs = true \/ aplay_result s = is_none (aplay_error s) ->
  aplay_result (fold_left dispatch cs s)
    = is_none (aplay_error (fold_left dispatch cs s)).
Proof.
  induction cs as [| c cs IH]; intros s H; cbn [fold_left].
  - destruct H as [H | H]; [discriminate | exact H].
  - apply IH. destruct c; cbn in *; auto.
Qed.

Lemma aplay_result_after_rounds steps : forall s,
  dispatches is_aplay_exit steps = true \/
  aplay_result s = is_none (aplay_error s) ->
  aplay_result (after_rounds s steps)
    = is_none (aplay_error (after_rounds s steps)).
Proof.
  unfold after_rounds, dispatches.
  induction steps as [| st steps IH]; intros s H; cbn [fold_left].
  - destruct H as [H | H]; [discriminate | exact H].
  - apply IH. cbn [existsb] in H.
    destruct (existsb is_aplay_exit (dispatched st)) eqn:Hst.
    + right. apply aplay_result_dispatched. left. exact Hst.
    + destruct H as [H | H]; [left; exact H |].
      right. apply aplay_result_dispatched. right. exact H.
Qed.

Lemma espeak_result_dispatched cs : forall s,
  existsb is_espeak_exit cs = true \/ espeak_result s = is_none (espeak_error s) ->
  espeak_result (fold_left dispatch cs s)
    = is_none (espeak_error (fold_left dispatch cs s)).
Proof.
  induction cs as [| c cs IH]; intros s H; cbn [fold_left].
  - destruct H as [H | H]; [discriminate | exact H].
  - apply IH. destruct c; cbn in *; auto.
Qed.

Lemma espeak_result_after_rounds steps : forall s,
  dispatches is_espeak_exit steps = true \/
  espeak_result s = is_none (espeak_error s) ->
  espeak_result (after_rounds s steps)
    = is_none (espeak_error (after_rounds s steps)).
Proof.
  unfold after_rounds, dispatches.
  induction steps as [| st steps IH]; intros s H; cbn [fold_left].
  - destruct H as [H | H]; [discriminate | exact H].
  - apply IH. cbn [existsb] in H.
    destruct (existsb is_espeak_exit (dispatched st)) eqn:Hst.
    + right. apply espeak_result_dispatched. left. exact Hst.
    + destruct H as [H | H]; [left; exact H |].
      right. apply espeak_result_dispatched. right. exact H.
Qed.

#[local] Arguments failure_message : simpl never.

Lemma play_file_finish_failed w message :
  aplay_result (self w) = false ->
  aplay_error (self w) = Some message ->
  (List.length (snd (env_stderr w Aplay)) < 4096)%nat ->
  play_file_finish Aplay None w
    = (Raised (RuntimeError
                 ("Playing file failed: " ++ diagnostic (env_stderr w Aplay) message)),
       log (EvUnref Aplay) w).
Proof.
  intros Hres Herr Hlen. unfold play_file_finish. cbn.
  rewrite Hres, Herr. cbn.
  rewrite (failure_message_short _ _ _ Hlen). reflexivity.
Qed.

Lemma play_file_finish_overrun w message data :
  aplay_result (self w) = false ->
  aplay_error (self w) = Some message ->
  env_stderr w Aplay = (true, data) ->
  (4096 <= List.length data)%nat ->
  play_file_finish Aplay None w = (Undefined BufferOverrun, w).
Proof.
  intros Hres Herr Hdata Hlen. unfold play_file_finish. cbn.
  rewrite Hres, Herr. cbn.
  rewrite (failure_message_overrun _ _ _ _ Hdata Hlen). reflexivity.
Qed.

Lemma play_file_finish_played w :
  aplay_result (self w) = true ->
  play_file_finish Aplay None w = (Normal mp_const_none, log (EvUnref Aplay) w).
Proof.
  intros Hres. unfold play_file_finish. cbn. rewrite Hres. reflexivity.
Qed.

Lemma is_none_false {A : Type} (o : option A) (a : A) : o = Some a -> is_none o = false.
Proof. intros ->. reflexivity. Qed.

(** A call of [play_file] that is not interrupted and whose process
    fails: the [RuntimeError] carries what the process wrote to stderr,
    up to the first NUL, when the read of the pipe succeeds and finds
    1 to 4095 bytes, and the message of the failed wait when the pipe
    is empty or the read fails. *)
Lemma play_file_reports_failure path w pre step post message :
  env_spawn w Aplay = None ->
  env_polls w = pre ++ step :: post ->
  dispatches is_aplay_exit pre = false ->
  dispatches is_aplay_exit [step] = true ->
  last_exception None (pre ++ [step]) = None ->
  aplay_error (after_rounds (play_file_armed (self w)) (pre ++ [step]))
    = Some message ->
  (List.length (snd (env_stderr w Aplay)) < 4096)%nat ->
  fst (ev3dev_Speaker_play_file (mp_obj_new_str path) w)
    = Raised (RuntimeError
                ("Playing file failed: " ++ diagnostic (env_stderr w Aplay) message)).
Proof.
  intros Hspawn Hpolls Hpre Hstep Hlast Herr Hlen.
  destruct (play_file_loop path w pre step post Hpolls Hpre Hstep)
    as (w1 & Hrun & Hs & Ht & Hp & He).
  rewrite (ev3dev_Speaker_play_file_started _ _ Hspawn).
  rewrite (bind_M_normal _ _ _ _ _ Hrun), Hlast.
  rewrite (play_file_finish_failed w1 message).
  - rewrite He. reflexivity.
  - rewrite Hs, aplay_result_after_rounds.
    + apply is_none_false with (a := message). exact Herr.
    + left. rewrite dispatches_app, Hstep, orb_true_r. reflexivity.
  - rewrite Hs. exact Herr.
  - rewrite He. exact Hlen.
Qed.

(** The same call when the process has written 4096 bytes or more. *)
Lemma play_file_overruns path w pre step post message data :
  env_spawn w Aplay = None ->
  env_polls w = pre ++ step :: post ->
  dispatches is_aplay_exit pre = false ->
  dispatches is_aplay_exit [step] = true ->
  last_exception None (pre ++ [step]) = None ->
  aplay_error (after_rounds (play_file_armed (self w)) (pre ++ [step]))
    = Some message ->
  env_stderr w Aplay = (true, data) ->
  (4096 <= List.length data)%nat ->
  fst (ev3dev_Speaker_play_file (mp_obj_new_str path) w) = Undefined BufferOverrun.
Proof.
  intros Hspawn Hpolls Hpre Hstep Hlast Herr Hdata Hlen.
  destruct (play_file_loop path w pre step post Hpolls Hpre Hstep)
    as (w1 & Hrun & Hs & Ht & Hp & He).
  rewrite (ev3dev_Speaker_play_file_started _ _ Hspawn).
  rewrite (bind_M_normal _ _ _ _ _ Hrun), Hlast.
  rewrite (play_file_finish_overrun w1 message data).
  - reflexivity.
  - rewrite Hs, aplay_result_after_rounds.
    + apply is_none_false with (a := message). exact Herr.
    + left. rewrite dispatches_app, Hstep, orb_true_r. reflexivity.
  - rewrite Hs. exact Herr.
  - rewrite He. exact Hdata.
  - exact Hlen.
Qed.

(** The same call when the process succeeds. *)
Lemma play_file_plays path w pre step post :
  env_spawn w Aplay = None ->
  env_polls w = pre ++ step :: post ->
  dispatches is_aplay_exit pre = false ->
  dispatches is_aplay_exit [step] = true ->
  last_exception None (pre ++ [step]) = None ->
  aplay_error (after_rounds (play_file_armed (self w)) (pre ++ [step])) = None ->
  fst (ev3dev_Speaker_play_file (mp_obj_new_str path) w) = Normal mp_const_none.
Proof.
  intros Hspawn Hpolls Hpre Hstep Hlast Herr.
  destruct (play_file_loop path w pre step post Hpolls Hpre Hstep)
    as (w1 & Hrun & Hs & Ht & Hp & He).
  rewrite (ev3dev_Speaker_play_file_started _ _ Hspawn).
  rewrite (bind_M_normal _ _ _ _ _ Hrun), Hlast.
  rewrite play_file_finish_played; [reflexivity|].
  rewrite Hs, aplay_result_after_rounds.
  - rewrite Herr. reflexivity.
  - left. rewrite dispatches_app, Hstep, orb_true_r. reflexivity.
Qed.

(** C7, at the input it fails on: aplay exits with an error after it has
    written 4096 bytes to its stderr.  The read fills the 4096 bytes of
    [stderr_bytes] and the code stores the NUL at [stderr_bytes[4096]],
    behind the buffer; no [RuntimeError] with the captured text is
    raised. *)
Theorem full_stderr_overruns_the_buffer :
  fst (ev3dev_Speaker_play_file (mp_obj_new_str "song.wav") flooded_world)
    = Undefined BufferOverrun.
Proof.
  apply (play_file_overruns "song.wav" flooded_world []
           (mk_poll [AplayExited (Some "Child process exited with code 1"%string)] None)
           [] "Child process exited with code 1" (repeat "x"%char 4096));
    reflexivity.
Qed.

Lemma say_finish_playback_failed w message :
  aplay_result (self w) = false ->
  aplay_error (self w) = Some message ->
  (List.length (snd (env_stderr w Aplay)) < 4096)%nat ->
  say_finish Espeak Aplay None w
    = (Raised (RuntimeError
                 ("Saying text failed: " ++ diagnostic (env_stderr w Aplay) message)),
       log (EvUnref Espeak) (log (EvUnref Aplay) w)).
Proof.
  intros Hres Herr Hlen. unfold say_finish. cbn.
  rewrite Hres, Herr. cbn.
  rewrite (failure_message_short _ _ _ Hlen). reflexivity.
Qed.

Lemma say_finish_synthesis_failed w message :
  aplay_result (self w) = true ->
  espeak_result (self w) = false ->
  espeak_error (self w) = Some message ->
  (List.length (snd (env_stderr w Espeak)) < 4096)%nat ->
  say_finish Espeak Aplay None w
    = (Raised (RuntimeError
                 ("Saying text failed: " ++ diagnostic (env_stderr w Espeak) message)),
       log (EvUnref Espeak) (log (EvUnref Aplay) w)).
Proof.
  intros Hres Hres' Herr Hlen. unfold say_finish. cbn.
  rewrite Hres. cbn. rewrite Hres', Herr. cbn.
  rewrite (failure_message_short _ _ _ Hlen). reflexivity.
Qed.

Lemma say_finish_said w :
  aplay_result (self w) = true ->
  espeak_result (self w) = true ->
  say_finish Espeak Aplay None w
    = (Normal mp_const_none, log (EvUnref Espeak) (log (EvUnref Aplay) w)).
Proof.
  intros Hres Hres'. unfold say_finish. cbn.
  rewrite Hres. cbn. rewrite Hres'. reflexivity.
Qed.

Lemma all_done_parts steps :
  all_done steps = true ->
  dispatches is_espeak_exit steps = true /\
  dispatches is_aplay_exit steps = true /\
  dispatches is_splice_end steps = true.
Proof.
  unfold all_done. intros H.
  apply andb_true_iff in H. destruct H as [H H3].
  apply andb_true_iff in H. tauto.
Qed.

(** C8.  A call of [say] that is not interrupted, on a script that
    brings the three notifications; [s] is the speaker object when the
    loop is left.  When aplay failed the call raises with the text of
    the failure of aplay, whether espeak failed too or not.  The text of
    the failure of espeak is raised only when aplay succeeded.  When
    both succeeded the call returns [None].  (The text of a failure is
    the stderr of the process or the message of its wait, for a stderr
    of less than 4096 bytes.) *)
Theorem say_reports_playback_first (text : string) (w : world)
    (pre : list poll_step) (step : poll_step) (post : list poll_step) :
  env_spawn w Espeak = None ->
  env_spawn w Aplay = None ->
  env_polls w = pre ++ step :: post ->
  all_done pre = false ->
  all_done (pre ++ [step]) = true ->
  last_exception None (pre ++ [step]) = None ->
  let s := after_rounds (say_armed (self w)) (pre ++ [step]) in
  (forall message,
     aplay_error s = Some message ->
     (List.length (snd (env_stderr w Aplay)) < 4096)%nat ->
     fst (ev3dev_Speaker_say (mp_obj_new_str text) w)
       = Raised (RuntimeError
                   ("Saying text failed: "
                    ++ diagnostic (env_stderr w Aplay) message))) /\
  (forall message,
     aplay_error s = None ->
     espeak_error s = Some message ->
     (List.length (snd (env_stderr w Espeak)) < 4096)%nat ->
     fst (ev3dev_Speaker_say (mp_obj_new_str text) w)
       = Raised (RuntimeError
                   ("Saying text failed: "
                    ++ diagnostic (env_stderr w Espeak) message))) /\
  (aplay_error s = None ->
   espeak_error s = None ->
   fst (ev3dev_Speaker_say (mp_obj_new_str text) w) = Normal mp_const_none).
Proof.
  intros Hespeak Haplay Hpolls Hpre Hstep Hlast s.
  destruct (say_loop text w pre step post Hpolls Hpre Hstep)
    as (w1 & Hrun & Hs & Ht & Hp & He).
  destruct (all_done_parts _ Hstep) as (Hde & Hda & _).
  assert (Hra : aplay_result (self w1) = is_none (aplay_error s)).
  { rewrite Hs. apply aplay_result_after_rounds. left. exact Hda. }
  assert (Hre : espeak_result (self w1) = is_none (espeak_error s)).
  { rewrite Hs. apply espeak_result_after_rounds. left. exact Hde. }
  rewrite (ev3dev_Speaker_say_started _ _ Hespeak Haplay).
  rewrite (bind_M_normal _ _ _ _ _ Hrun), Hlast.
  repeat split.
  - intros message Herr Hlen.
    rewrite (say_finish_playback_failed w1 message).
    + rewrite He. reflexivity.
    + rewrite Hra, Herr. reflexivity.
    + rewrite Hs. exact Herr.
    + rewrite He. exact Hlen.
  - intros message Hok Herr Hlen.
    rewrite (say_finish_synthesis_failed w1 message).
    + rewrite He. reflexivity.
    + rewrite Hra, Hok. reflexivity.
    + rewrite Hre, Herr. reflexivity.
    + rewrite Hs. exact Herr.
    + rewrite He. exact Hlen.
  - intros Hok Hok'.
    rewrite say_finish_said.
    + reflexivity.
    + rewrite Hra, Hok. reflexivity.
    + rewrite Hre, Hok'. reflexivity.
Qed.

(** A run of C8: both processes fail, and the error is that of aplay. *)
Lemma say_reports_playback_first_witness :
  fst (ev3dev_Speaker_say (mp_obj_new_str "hi") failing_world)
    = Raised (RuntimeError "Saying text failed: aplay: no sound card").
Proof.
  destruct (say_reports_playback_first "hi" failing_world
              [mk_poll [EspeakExited (Some "Child process exited with code 2"%string);
                        SpliceFinished 0 None] None]
              (mk_poll [AplayExited (Some "Child process exited with code 1"%string)] None)
              [] eq_refl eq_refl eq_refl eq_refl eq_refl eq_refl)
    as (Hplayback & _ & _).
  rewrite (Hplayback "Child process exited with code 1"%string eq_refl
             ltac:(cbn; lia)).
  reflexivity.
Defined.

(** ** More about the sound device *)

(** The retry loop on a script that starts with [k] interrupted writes:
    they are all retried, and the write after them decides. *)
Lemma write_retry_interrupted fd freq rest : forall k n w,
  0 <= fd ->
  env_writes w = repeat (WriteError EINTR) k ++ rest ->
  hd_error rest <> Some (WriteError EINTR) ->
  (k <= n)%nat ->
  let r := match rest with WriteError _ :: _ => -1 | _ => 16 end in
  exists w',
    write_retry n fd freq w = (Normal r, w') /\
    self w' = self w /\
    trace w' = trace w ++ repeat (EvWrite fd freq (-1)) k ++ [EvWrite fd freq r] /\
    env_writes w' = tl rest /\
    env_delays w' = env_delays w /\
    tone w' = (if r =? -1 then tone w else freq) /\
    (forall e rest', rest = WriteError e :: rest' -> errno w' = e).
Proof.
  assert (Hfd : forall fd', 0 <= fd' -> (fd' <? 0) = false)
    by (intros; apply Z.ltb_ge; assumption).
  induction k as [| k IH]; intros n w Hpos Hw Hhd Hk r.
  - cbn [repeat app] in Hw. subst r.
    assert (Hstep : exists w',
              sys_write fd freq w
                = (Normal match rest with WriteError _ :: _ => -1 | _ => 16 end, w') /\
              self w' = self w /\
              trace w' = trace w
                ++ [EvWrite fd freq match rest with WriteError _ :: _ => -1 | _ => 16 end] /\
              env_writes w' = tl rest /\
              env_delays w' = env_delays w /\
              tone w' = (if match rest with WriteError _ :: _ => -1 | _ => 16 end =? -1
                         then tone w else freq) /\
              (forall e rest', rest = WriteError e :: rest' -> errno w' = e)).
    { unfold sys_write. rewrite (Hfd fd Hpos), Hw.
      destruct rest as [| [| e] rest']; eexists; (split; [reflexivity|]); cbn;
        repeat split; auto; try discriminate; try congruence. }
    destruct Hstep as (w' & Hrun & Hs & Ht & Hws & Hds & Htone & Herr).
    exists w'. split.
    { destruct n; cbn [write_retry]; rewrite (bind_M_normal _ _ _ _ _ Hrun); cbn;
        [reflexivity|].
      destruct rest as [| [| e] rest']; cbn; try reflexivity.
      rewrite (Herr e rest' eq_refl).
      destruct (Z.eqb_spec e EINTR) as [-> | Hne]; [|reflexivity].
      exfalso. apply Hhd. reflexivity. }
    cbn [repeat app]. auto 10.
  - destruct n as [| n]; [lia|].
    cbn [repeat app] in Hw.
    set (w1 := with_errno EINTR (with_writes (repeat (WriteError EINTR) k ++ rest)
                 (log (EvWrite fd freq (-1)) w))).
    assert (Hrun : sys_write fd freq w = (Normal (-1), w1)).
    { unfold sys_write. rewrite (Hfd fd Hpos), Hw. reflexivity. }
    destruct (IH n w1 Hpos eq_refl Hhd ltac:(lia))
      as (w' & Hrun' & Hs & Ht & Hws & Hds & Htone & Herr).
    exists w'. split.
    { cbn [write_retry]. rewrite (bind_M_normal _ _ _ _ _ Hrun). cbn.
      exact Hrun'. }
    split; [rewrite Hs; reflexivity|].
    split; [rewrite Ht; cbn; rewrite <- app_assoc; reflexivity|].
    split; [exact Hws|].
    split; [rewrite Hds; reflexivity|].
    split; [rewrite Htone; reflexivity | exact Herr].
Qed.

(** X1.  [set_beep_frequency] on an open descriptor, when the next [k]
    writes are interrupted ([EINTR]): it writes [k] + 1 times, always
    the same value.  The write after the interrupted ones decides: when
    it succeeds the device sounds at the frequency, when it fails the
    call returns -1 with the [errno] of that failure and the tone is as
    before.  Nothing else of the script is used up. *)
Theorem set_beep_frequency_retries_interrupted_writes
    (freq : Z) (k : nat) (rest : list write_result) (w : world) :
  0 <= beep_fd (self w) ->
  env_writes w = repeat (WriteError EINTR) k ++ rest ->
  hd_error rest <> Some (WriteError EINTR) ->
  let fd := beep_fd (self w) in
  let r := match rest with WriteError _ :: _ => -1 | _ => 16 end in
  exists w',
    set_beep_frequency freq w = (Normal r, w') /\
    trace w' = trace w ++ repeat (EvWrite fd freq (-1)) k ++ [EvWrite fd freq r] /\
    env_writes w' = tl rest /\
    tone w' = (if r =? -1 then tone w else freq) /\
    (forall e rest', rest = WriteError e :: rest' -> errno w' = e).
Proof.
  intros Hfd Hw Hhd fd r.
  destruct (write_retry_interrupted fd freq rest k (List.length (env_writes w)) w
              Hfd Hw Hhd)
    as (w' & Hrun & Hs & Ht & Hws & Hds & Htone & Herr).
  { rewrite Hw, length_app, repeat_length. lia. }
  exists w'. split; [exact Hrun|]. auto.
Qed.

(** A run of X1: two interrupted writes, then one that succeeds. *)
Lemma set_beep_frequency_retries_interrupted_writes_witness :
  run (set_beep_frequency 440)
      (with_writes [WriteError EINTR; WriteError EINTR; WriteOk] ready_world)
    = (Normal 16, [EvWrite 3 440 (-1); EvWrite 3 440 (-1); EvWrite 3 440 16]).
Proof.
  destruct (set_beep_frequency_retries_interrupted_writes 440 2 [WriteOk]
              (with_writes [WriteError EINTR; WriteError EINTR; WriteOk] ready_world)
              ltac:(cbn; lia) eq_refl ltac:(discriminate))
    as (w' & Hrun & Ht & _).
  unfold run. rewrite Hrun, Ht. reflexivity.
Defined.

(** X2.  [beep] on an open descriptor whose write fails with an error
    other than [EINTR]: it raises [OSError] with that error, whatever
    the duration, after the one failed write; the tone of the device is
    as before and no delay has started. *)
Theorem beep_raises_on_write_error
    (frequency duration e : Z) (rest : list write_result) (w : world) :
  0 <= beep_fd (self w) ->
  env_writes w = WriteError e :: rest ->
  e <> EINTR ->
  exists w',
    ev3dev_Speaker_beep frequency duration w = (Raised (OSError e), w') /\
    trace w' = trace w ++ [EvWrite (beep_fd (self w)) frequency (-1)] /\
    tone w' = tone w /\
    env_delays w' = env_delays w.
Proof.
  intros Hfd Hw He.
  destruct (write_retry_interrupted (beep_fd (self w)) frequency
              (WriteError e :: rest) 0 (List.length (env_writes w)) w
              Hfd Hw)
    as (w' & Hrun & Hs & Ht & Hws & Hds & Htone & Herr).
  { cbn. congruence. }
  { lia. }
  exists w'. split.
  - unfold ev3dev_Speaker_beep. cbn -[set_beep_frequency].
    unfold set_beep_frequency at 1. cbn -[write_retry].
    rewrite Hrun. cbn. rewrite (Herr e rest eq_refl). reflexivity.
  - cbn in Ht, Htone. auto.
Qed.

(** A run of X2: the device answers the write with [EIO]. *)
Lemma beep_raises_on_write_error_witness :
  run (ev3dev_Speaker_beep 500 100) (with_writes [WriteError 5] ready_world)
    = (Raised (OSError 5), [EvWrite 3 500 (-1)]).
Proof.
  destruct (beep_raises_on_write_error 500 100 5 []
              (with_writes [WriteError 5] ready_world)
              ltac:(cbn; lia) eq_refl ltac:(discriminate))
    as (w' & Hrun & Ht & _).
  unfold run. rewrite Hrun, Ht. reflexivity.
Defined.

(** X3.  The speaker is a singleton that is set up once: constructing
    it a second time changes nothing, whether the device opened or not;
    two constructions in a row are one. *)
Theorem make_new_twice_is_once (w : world) :
  (ev3dev_Speaker_make_new ;; ev3dev_Speaker_make_new) w
    = ev3dev_Speaker_make_new w.
Proof.
  destruct w as [s e t tr [fd en] ws ds sp ps se].
  unfold ev3dev_Speaker_make_new, sys_open. cbn.
  destruct (intialized s) eqn:Hi; cbn.
  - rewrite Hi. reflexivity.
  - destruct (fd =? -1); reflexivity.
Qed.

(** ** Notes the parser accepts *)

Lemma note_at_past s1 s2 k :
  note_at (s1 ++ s2) (k + String.length s1) = note_at s2 k.
Proof. rewrite Nat.add_comm. apply note_at_app. Qed.

Lemma chr_digit n :
  0 <= n <= 9 -> chr (ascii_of_N (Z.to_N (chr "0" + n))) = chr "0" + n.
Proof.
  intros Hn. unfold chr at 1. rewrite N_ascii_embedding.
  - rewrite Z2N.id; [reflexivity | change (chr "0") with 48; lia].
  - change (chr "0") with 48. lia.
Qed.

Lemma note_fraction_one_digit note pos d :
  note_at note pos = chr "0" + d ->
  0 <= d <= 9 ->
  note_at note (S pos) - chr "0" < 0 \/ 9 < note_at note (S pos) - chr "0" ->
  note_fraction note pos = Normal (d, S pos).
Proof.
  intros H1 Hd H2. unfold note_fraction. rewrite H1.
  replace (chr "0" + d - chr "0") with d by lia.
  case_if; [to_prop; lia|]. cbn.
  case_if; [reflexivity|]. to_prop. cbn in *. lia.
Qed.

Lemma note_fraction_two_digits note pos d1 d2 :
  note_at note pos = chr "0" + d1 ->
  0 <= d1 <= 9 ->
  note_at note (S pos) = chr "0" + d2 ->
  0 <= d2 <= 9 ->
  note_fraction note pos = Normal (d1 * 10 + d2, S (S pos)).
Proof.
  intros H1 Hd1 H2 Hd2. unfold note_fraction. rewrite H1, H2.
  replace (chr "0" + d1 - chr "0") with d1 by lia.
  replace (chr "0" + d2 - chr "0") with d2 by lia.
  case_if; [to_prop; lia|]. cbn.
  case_if; [to_prop; lia | reflexivity].
Qed.

Lemma note_decorations_read note q pos (dot tie : bool) :
  (note_at note pos =? chr ".") = dot ->
  (note_at note (if dot then S pos else pos) =? chr "_") = tie ->
  note_decorations note q pos
    = Normal ((if dot then 3 * q ÷ 2 else q), negb tie).
Proof.
  intros Hdot Htie. unfold note_decorations. rewrite Hdot.
  destruct dot; cbn [Nat.pred]; rewrite Htie; destruct tie; reflexivity.
Qed.

(** The part of the parser after the pitch, on a note that goes on with
    '/', a fraction and decorations from position [p]. *)
Lemma parse_after_pitch note p freq duration d1 d2 dot tie rest :
  (forall k, note_at note (k + p)
             = note_at ("/" ++ fraction_digits d1 d2 ++ decorations dot tie ++ rest) k) ->
  0 <= d1 <= 9 ->
  (forall d, d2 = Some d -> 0 <= d <= 9) ->
  fraction_value d1 d2 <> 0 ->
  not_consumed d2 dot tie rest ->
  (pos <- note_delimiter note p ;;
   '(fraction, pos) <- note_fraction note pos ;;
   duration <- c_div duration fraction ;;
   '(duration, release) <- note_decorations note duration pos ;;
   ret (freq, duration, release) : outcome (float * Z * bool))
  = Normal (freq,
            (let q := duration ÷ fraction_value d1 d2 in
             if dot then 3 * q ÷ 2 else q),
            negb tie).
Proof.
  intros Hread Hd1 Hd2 Hnz Hrest.
  pose proof (Hread 0%nat) as H0. pose proof (Hread 1%nat) as H1.
  pose proof (Hread 2%nat) as H2. pose proof (Hread 3%nat) as H3.
  pose proof (Hread 4%nat) as H4. pose proof (Hread 5%nat) as H5.
  cbn [Nat.add] in H0, H1, H2, H3, H4, H5.
  unfold fraction_digits, decorations, digit in H0, H1, H2, H3, H4, H5.
  rewrite (note_delimiter_good note p) by (rewrite H0; reflexivity).
  cbn [bind Monad_outcome].
  assert (Hc1 : note_at note (S p) = chr "0" + d1).
  { rewrite H1. cbn [append]. rewrite note_at_S, note_at_O. apply chr_digit, Hd1. }
  destruct d2 as [d2 |].
  - assert (Hc2 : note_at note (S (S p)) = chr "0" + d2).
    { rewrite H2. cbn [append]. rewrite !note_at_S, note_at_O.
      apply chr_digit, Hd2. reflexivity. }
    rewrite (note_fraction_two_digits note (S p) d1 d2 Hc1 Hd1 Hc2 (Hd2 d2 eq_refl)).
    cbn [bind Monad_outcome]. unfold c_div.
    cbn [fraction_value] in Hnz |- *.
    apply Z.eqb_neq in Hnz. rewrite Hnz.
    rewrite (note_decorations_read note _ (S (S (S p))) dot tie); [reflexivity | |].
    + rewrite H3. destruct dot, tie; cbn [append]; rewrite !note_at_S;
        try rewrite note_at_O; try reflexivity;
        cbn in Hrest; apply Z.eqb_neq; tauto.
    + destruct dot.
      * rewrite H4. destruct tie; cbn [append]; rewrite !note_at_S;
          try rewrite note_at_O; try reflexivity.
        cbn in Hrest. apply Z.eqb_neq. tauto.
      * rewrite H3. destruct tie; cbn [append]; rewrite !note_at_S;
          try rewrite note_at_O; try reflexivity.
        cbn in Hrest. apply Z.eqb_neq. tauto.
  - assert (Hc2 : note_at note (S (S p)) - chr "0" < 0 \/
                  9 < note_at note (S (S p)) - chr "0").
    { rewrite H2. destruct dot, tie; cbn [append]; rewrite !note_at_S;
        try rewrite note_at_O; try (cbn; lia).
      cbn in Hrest. tauto. }
    rewrite (note_fraction_one_digit note (S p) d1 Hc1 Hd1 Hc2).
    cbn [bind Monad_outcome]. unfold c_div.
    cbn [fraction_value] in Hnz |- *.
    apply Z.eqb_neq in Hnz. rewrite Hnz.
    rewrite (note_decorations_read note _ (S (S p)) dot tie); [reflexivity | |].
    + rewrite H2. destruct dot, tie; cbn [append]; rewrite !note_at_S;
        try rewrite note_at_O; try reflexivity;
        cbn in Hrest; apply Z.eqb_neq; tauto.
    + destruct dot.
      * rewrite H3. destruct tie; cbn [append]; rewrite !note_at_S;
          try rewrite note_at_O; try reflexivity.
        cbn in Hrest. apply Z.eqb_neq. tauto.
      * rewrite H2. destruct tie; cbn [append]; rewrite !note_at_S;
          try rewrite note_at_O; try reflexivity.
        cbn in Hrest. apply Z.eqb_neq. tauto.
Qed.

(** X10.  Every note of the grammar with a pitch is accepted: a spelling
    of the table, an octave from 2 to 8, '/', a fraction of one or two
    digits that is not zero, an optional dot and an optional tie.  Its
    frequency is the base of the spelling times [2 << octave], its
    duration the whole note divided by the fraction, half as long again
    with a dot, and it is released unless it is tied.  What follows the
    note is ignored, as long as it cannot be taken for a part of it. *)
Theorem parse_note_accepts_pitch
    (spelling : string) (base : float) (octave d1 : Z) (d2 : option Z)
    (dot tie : bool) (rest : string) (duration : Z) :
  In (spelling, base) base_frequency ->
  2 <= octave <= 8 ->
  0 <= d1 <= 9 ->
  (forall d, d2 = Some d -> 0 <= d <= 9) ->
  fraction_value d1 d2 <> 0 ->
  not_consumed d2 dot tie rest ->
  parse_note (spelling ++ digit octave ++ "/" ++ fraction_digits d1 d2
              ++ decorations dot tie ++ rest) duration
    = Normal (PrimFloat.mul base (double_of_int (Z.shiftl 2 octave)),
              (let q := duration ÷ fraction_value d1 d2 in
               if dot then 3 * q ÷ 2 else q),
              negb tie).
Proof.
  intros Hin Ho Hd1 Hd2 Hnz Hrest. unfold parse_note.
  rewrite (note_name_before_digit _ _ _ _ Hin Ho). cbn [bind Monad_outcome].
  rewrite (note_octave_after_spelling _ _ _ _ Hin Ho). cbn [bind Monad_outcome].
  apply (parse_after_pitch _ _ _ _ d1 d2 dot tie rest); try assumption.
  intros k. rewrite Nat.add_succ_r.
  change (S (k + String.length spelling)) with (S k + String.length spelling)%nat.
  rewrite note_at_past. unfold digit at 1. cbn [append].
  apply note_at_S.
Qed.

(** A run of X10: a dotted, tied sixteenth with a flat, followed by
    something else. *)
Lemma parse_note_accepts_pitch_witness :
  parse_note "Bb3/16._ and more" 2000 = Normal (466.24%float, 187, false).
Proof.
  exact (parse_note_accepts_pitch "Bb" 29.14 3 1 (Some 6) true true " and more" 2000
           ltac:(cbn; tauto) ltac:(lia) ltac:(lia)
           ltac:(intros d Hd; inversion Hd; lia) ltac:(cbn; lia) I).
Defined.

(** X11.  Every rest of the grammar is accepted: "R", '/', a fraction
    that is not zero, an optional dot and an optional tie, with no
    octave.  Its frequency is 0 and its duration is that of a note of
    the same fraction. *)
Theorem parse_note_accepts_rest
    (d1 : Z) (d2 : option Z) (dot tie : bool) (rest : string) (duration : Z) :
  0 <= d1 <= 9 ->
  (forall d, d2 = Some d -> 0 <= d <= 9) ->
  fraction_value d1 d2 <> 0 ->
  not_consumed d2 dot tie rest ->
  parse_note ("R/" ++ fraction_digits d1 d2 ++ decorations dot tie ++ rest) duration
    = Normal (0%float,
              (let q := duration ÷ fraction_value d1 d2 in
               if dot then 3 * q ÷ 2 else q),
              negb tie).
Proof.
  intros Hd1 Hd2 Hnz Hrest. unfold parse_note.
  change ("R/" ++ fraction_digits d1 d2 ++ decorations dot tie ++ rest)%string
    with ("R" ++ ("/" ++ fraction_digits d1 d2 ++ decorations dot tie ++ rest))%string.
  rewrite (note_name_rest ("/" ++ fraction_digits d1 d2 ++ decorations dot tie ++ rest)).
  cbn [bind Monad_outcome].
  rewrite note_octave_rest. cbn [bind Monad_outcome].
  apply (parse_after_pitch _ _ _ _ d1 d2 dot tie rest); try assumption.
  intros k. rewrite Nat.add_1_r. cbn [append]. apply note_at_S.
Qed.

(** A run of X11: a half rest. *)
Lemma parse_note_accepts_rest_witness :
  parse_note "R/2" 2000 = Normal (0%float, 1000, true).
Proof.
  exact (parse_note_accepts_rest 2 None false false "" 2000
           ltac:(lia) ltac:(intros d Hd; discriminate Hd) ltac:(cbn; lia)
           ltac:(cbn; repeat split; try discriminate; lia)).
Defined.

(** ** Timing and tones of a note *)

(** X12.  A note that is released, played with no delay interrupted,
    takes two delays, 7/8 and 1/8 of its duration, each rounded down:
    together they are the duration of the note or 1 ms less, never
    more. *)
Theorem released_note_timing
    (note : string) (duration : Z) (freq : float) (d : Z) (w : world) :
  parse_note note duration = Normal (freq, d, true) ->
  0 <= d ->
  env_delays w = [] ->
  exists w' evs,
    ev3dev_Speaker_play_note (mp_obj_new_str note) duration w = (Normal tt, w') /\
    trace w' = trace w ++ evs /\
    delays_of evs = [7 * d ÷ 8; d ÷ 8] /\
    d - 1 <= fold_right Z.add 0 (delays_of evs) <= d.
Proof.
  intros Hparse Hd Hdel.
  destruct (ev3dev_Speaker_play_note_released _ _ _ _ w Hparse Hdel)
    as (w' & evs & Hrun & Htr & Hds & _).
  exists w', evs. repeat split; try assumption;
    rewrite Hds; cbn [fold_right];
    Z.to_euclidean_division_equations; lia.
Qed.

(** A run of X12: an eighth note at tempo 100 lasts 300 ms and takes
    262 + 37 = 299 ms. *)
Lemma released_note_timing_witness :
  exists w' evs,
    ev3dev_Speaker_play_note (mp_obj_new_str "E4/8") 2400 ready_world
      = (Normal tt, w') /\
    trace w' = trace ready_world ++ evs /\
    delays_of evs = [262; 37].
Proof.
  destruct (released_note_timing "E4/8" 2400
              (PrimFloat.mul 20.60 (double_of_int 32)) 300 ready_world
              eq_refl ltac:(lia) eq_refl)
    as (w' & evs & Hrun & Htr & Hds & _).
  exists w', evs. auto.
Defined.

(** X13.  A note with a tie, played with no delay interrupted: the
    frequency of the note is written to the device (again after each
    failed attempt that is retried), then comes one delay of the whole
    duration of the note.  Nothing else is written: the note is not
    silenced, and the device still sounds when the call returns, if the
    write went through. *)
Theorem tied_note_is_not_released
    (note : string) (duration : Z) (freq : float) (d : Z) (w : world) :
  parse_note note duration = Normal (freq, d, false) ->
  env_delays w = [] ->
  exists w' k r,
    ev3dev_Speaker_play_note (mp_obj_new_str note) duration w = (Normal tt, w') /\
    trace w' = trace w
      ++ repeat (EvWrite (beep_fd (self w)) (int_of_double freq) (-1)) k
      ++ [EvWrite (beep_fd (self w)) (int_of_double freq) r; EvDelay d] /\
    (r <> -1 -> tone w' = int_of_double freq).
Proof.
  intros Hparse Hdel.
  unfold ev3dev_Speaker_play_note. cbn. unfold lift. rewrite Hparse.
  destruct (write_retry_attempts (List.length (env_writes w)) (beep_fd (self w))
              (int_of_double freq) w)
    as (r1 & w1 & k & Hrun1 & Hw1 & Htr1 & Hok).
  unfold set_beep_frequency at 1. cbn -[write_retry].
  rewrite Hrun1; cbn.
  assert (Hdel1 : env_delays w1 = []) by (rewrite (wrote_delays _ _ Hw1); exact Hdel).
  rewrite (mp_hal_delay_ms_undisturbed _ _ Hdel1).
  exists (log (EvDelay d) w1), k, r1.
  split; [reflexivity|].
  split; [cbn; rewrite Htr1, <- !app_assoc; reflexivity | exact Hok].
Qed.

(** A run of X13: a tied quarter note on a device that works. *)
Lemma tied_note_is_not_released_witness :
  run (ev3dev_Speaker_play_note (mp_obj_new_str "G3/4_") 2000) ready_world
    = (Normal tt, [EvWrite 3 392 16; EvDelay 500]).
Proof.
  destruct (tied_note_is_not_released "G3/4_" 2000
              (PrimFloat.mul 24.50 (double_of_int 16)) 500 ready_world
              eq_refl eq_refl)
    as (w' & k & r & Hrun & _).
  unfold run. rewrite Hrun.
  vm_compute in Hrun. inversion Hrun. reflexivity.
Defined.

(** The name of a note, when it is accepted, is the rest or a spelling
    of the table. *)
Lemma note_name_values note pos f p :
  note_name note pos = Normal (f, p) ->
  f = 0%float \/ exists spelling, In (spelling, f) base_frequency.
Proof.
  unfold note_name, switch_accidental.
  repeat case_if; cbn; intros H; inversion H; subst;
    first [ left; reflexivity
          | right; eexists; cbn; eauto 20 ].
Qed.

Lemma note_octave_values note f pos f' p' :
  note_octave note f pos = Normal (f', p') ->
  PrimFloat.eqb f 0 = false ->
  exists octave,
    2 <= octave <= 8 /\
    f' = PrimFloat.mul f (double_of_int (Z.shiftl 2 octave)).
Proof.
  unfold note_octave. intros H Hf. rewrite Hf in H. cbn in H.
  destruct ((note_at note pos - 48 <? 2) || (note_at note pos - 48 >? 8)) eqn:Ho;
    cbn in H; [discriminate|].
  inversion H; subst. exists (note_at note pos - 48).
  split; [to_prop; lia | reflexivity].
Qed.

Lemma pitch_in_range spelling base octave :
  In (spelling, base) base_frequency ->
  2 <= octave <= 8 ->
  130 <= int_of_double (PrimFloat.mul base (double_of_int (Z.shiftl 2 octave)))
      <= 15805.
Proof.
  intros Hin Ho.
  assert (Hcases : In octave [2; 3; 4; 5; 6; 7; 8]) by (cbn; lia).
  cbn in Hin, Hcases.
  repeat (destruct Hin as [Hin | Hin]; [inversion Hin; subst spelling base; clear Hin |]);
    try contradiction;
    repeat (destruct Hcases as [<- | Hcases]); try contradiction;
    vm_compute; split; discriminate.
Qed.

(** X14.  Whatever the note, when the parser accepts it its frequency
    is 0 (a rest) or the base of a spelling of the table times
    [2 << octave] for an octave from 2 to 8.  So the frequency the
    device is asked for is 0 or lies between 130 Hz (C2) and 15805 Hz
    (B8). *)
Theorem accepted_note_frequency
    (note : string) (duration : Z) (freq : float) (d : Z) (release : bool) :
  parse_note note duration = Normal (freq, d, release) ->
  (freq = 0%float \/
   exists spelling base octave,
     In (spelling, base) base_frequency /\
     2 <= octave <= 8 /\
     freq = PrimFloat.mul base (double_of_int (Z.shiftl 2 octave))) /\
  (int_of_double freq = 0 \/ 130 <= int_of_double freq <= 15805).
Proof.
  unfold parse_note. intros H.
  destruct (note_name note 0) as [[f p] | | |] eqn:Hname; cbn in H; try discriminate.
  destruct (note_octave note f p) as [[f' p'] | | |] eqn:Hoct; cbn in H;
    try discriminate.
  assert (Hfreq : freq = f').
  { destruct (note_delimiter note p') as [p2 | | |]; cbn in H; try discriminate.
    destruct (note_fraction note p2) as [[fr p3] | | |]; cbn in H; try discriminate.
    destruct (c_div duration fr) as [q | | |]; cbn in H; try discriminate.
    destruct (note_decorations note q p3) as [[d' rel] | | |]; cbn in H;
      try discriminate.
    inversion H. reflexivity. }
  subst freq. clear H.
  destruct (note_name_values _ _ _ _ Hname) as [-> | [spelling Hin]].
  - rewrite note_octave_rest in Hoct. inversion Hoct; subst.
    split; left; reflexivity.
  - destruct (note_octave_values _ _ _ _ _ Hoct
                (base_frequency_not_zero _ _ Hin)) as (octave & Ho & ->).
    split.
    + right. exists spelling, f, octave. auto.
    + right. eapply pitch_in_range; eassumption.
Qed.

(** A run of X14: the lowest note. *)
Lemma accepted_note_frequency_witness :
  parse_note "C2/1" 2000
    = Normal (PrimFloat.mul 16.35 (double_of_int 8), 2000, true) /\
  (int_of_double (PrimFloat.mul 16.35 (double_of_int 8)) = 0 \/
   130 <= int_of_double (PrimFloat.mul 16.35 (double_of_int 8)) <= 15805).
Proof.
  split; [reflexivity|].
  exact (proj2 (accepted_note_frequency "C2/1" 2000
                  (PrimFloat.mul 16.35 (double_of_int 8)) 2000 true eq_refl)).
Defined.

(** ** Melodies at the edges *)

(** X15.  A melody with no note: with a tempo that is not 0,
    [play_notes] writes frequency 0 to the device (again after each
    failed attempt that is retried), starts no delay and returns [None].
    With the tempo 0 it divides by zero before it looks at its notes,
    whatever they are, and does nothing to the device. *)
Theorem play_notes_of_no_note (tempo : Z) (w : world) :
  if tempo =? 0 then
    forall notes,
      ev3dev_Speaker_play_notes notes tempo w = (Undefined DivisionByZero, w)
  else
    exists w' k r,
      ev3dev_Speaker_play_notes (mp_obj_new_list []) tempo w
        = (Normal mp_const_none, w') /\
      trace w' = trace w ++ repeat (EvWrite (beep_fd (self w)) 0 (-1)) k
                 ++ [EvWrite (beep_fd (self w)) 0 r] /\
      (r <> -1 -> tone w' = 0).
Proof.
  unfold ev3dev_Speaker_play_notes, lift, c_div.
  destruct (tempo =? 0); [reflexivity|].
  destruct (write_retry_attempts (List.length (env_writes w)) (beep_fd (self w)) 0 w)
    as (r & w' & k & Hrun & Hw & Htr & Hok).
  exists w', k, r. split; [|auto].
  cbn -[set_beep_frequency]. unfold set_beep_frequency. cbn -[write_retry].
  rewrite Hrun. reflexivity.
Qed.

(** ** More about the helper processes *)

Lemma dispatch_commutes s c1 c2 :
  completion_kind c1 <> completion_kind c2 ->
  dispatch (dispatch s c1) c2 = dispatch (dispatch s c2) c1.
Proof.
  destruct c1, c2; cbn; intros H; try contradiction; reflexivity.
Qed.

(** X16.  The three callbacks do not depend on the order of the
    notifications: completions of different kinds, dispatched in one
    order or in another, leave the same speaker object. *)
Theorem callbacks_in_any_order (l l' : list completion) :
  Permutation l l' ->
  NoDup (map completion_kind l) ->
  forall s, fold_left dispatch l s = fold_left dispatch l' s.
Proof.
  induction 1 as [| c l l' Hperm IH | c1 c2 l | l l' l'' H1 IH1 H2 IH2];
    intros Hnodup s.
  - reflexivity.
  - cbn. apply IH. inversion Hnodup; assumption.
  - cbn. rewrite dispatch_commutes; [reflexivity|].
    inversion Hnodup as [| k ks Hnotin _]; subst.
    intros Heq. apply Hnotin. left. symmetry. exact Heq.
  - rewrite IH1 by exact Hnodup. apply IH2.
    eapply Permutation_NoDup; [| exact Hnodup].
    apply Permutation_map. exact H1.
Qed.

(** A run of X16: the splice ends first or last. *)
Lemma callbacks_in_any_order_witness :
  fold_left dispatch
    [AplayExited None; EspeakExited (Some "killed"%string); SpliceFinished 7 None]
    no_speaker
  = fold_left dispatch
      [SpliceFinished 7 None; EspeakExited (Some "killed"%string); AplayExited None]
      no_speaker.
Proof.
  apply (callbacks_in_any_order
           [AplayExited None; EspeakExited (Some "killed"%string); SpliceFinished 7 None]
           [SpliceFinished 7 None; EspeakExited (Some "killed"%string); AplayExited None]).
  - apply (Permutation_rev
             [AplayExited None; EspeakExited (Some "killed"%string);
              SpliceFinished 7 None]).
  - cbn. repeat constructor; cbn; intuition discriminate.
Defined.

(** X17.  When a helper process cannot be spawned, [play_file] and [say]
    raise a [RuntimeError] with the message of the spawn and wait for
    nothing.  If it is the first process of the call, nothing has
    happened at all.  If it is aplay in [say], espeak has been spawned
    and is released again, without being forced to exit. *)
Theorem spawn_failure_is_raised (path text message : string) (w : world) :
  (env_spawn w Aplay = Some message ->
   ev3dev_Speaker_play_file (mp_obj_new_str path) w
     = (Raised (RuntimeError ("Failed to spawn aplay: " ++ message)), w)) /\
  (env_spawn w Espeak = Some message ->
   ev3dev_Speaker_say (mp_obj_new_str text) w
     = (Raised (RuntimeError ("Failed to spawn espeak: " ++ message)), w)) /\
  (env_spawn w Espeak = None ->
   env_spawn w Aplay = Some message ->
   ev3dev_Speaker_say (mp_obj_new_str text) w
     = (Raised (RuntimeError ("Failed to spawn aplay: " ++ message)),
        log (EvUnref Espeak)
          (log (EvSpawn Espeak
                  ["espeak"; "-a"; "200"; "-s"; "100"; "-v"; "en"; "--stdout"; text]%string)
             w))).
Proof.
  repeat split.
  - intros Hspawn. unfold ev3dev_Speaker_play_file, g_subprocess_new.
    cbn. rewrite Hspawn. reflexivity.
  - intros Hspawn. unfold ev3dev_Speaker_say, g_subprocess_new.
    cbn. rewrite Hspawn. reflexivity.
  - intros Hespeak Haplay. unfold ev3dev_Speaker_say, g_subprocess_new.
    cbn. rewrite Hespeak. cbn. rewrite Haplay. reflexivity.
Qed.

(** A run of X17: espeak is there and aplay is not installed. *)
Lemma spawn_failure_is_raised_witness :
  run (ev3dev_Speaker_say (mp_obj_new_str "hi")) aplayless_world
    = (Raised (RuntimeError "Failed to spawn aplay: No such file or directory"),
       [EvSpawn Espeak
          ["espeak"; "-a"; "200"; "-s"; "100"; "-v"; "en"; "--stdout"; "hi"]%string;
        EvUnref Espeak]) /\
  run (ev3dev_Speaker_play_file (mp_obj_new_str "hi.wav")) aplayless_world
    = (Raised (RuntimeError "Failed to spawn aplay: No such file or directory"), []).
Proof.
  destruct (spawn_failure_is_raised "hi.wav" "hi" "No such file or directory"
              aplayless_world) as (Hfile & _ & Hsay).
  unfold run. rewrite (Hfile eq_refl), (Hsay eq_refl eq_refl).
  split; reflexivity.
Defined.

Lemma c_string_text data :
  Forall (fun c => c <> Ascii.zero) data ->
  c_string data = string_of_list_ascii data.
Proof.
  induction 1 as [| c data Hc _ IH]; [reflexivity|].
  cbn. apply Ascii.eqb_neq in Hc. rewrite Hc, IH. reflexivity.
Qed.

Lemma last_exception_stays steps : forall e,
  last_exception (Some e) steps <> None.
Proof.
  induction steps as [| st steps IH]; intros e; cbn; [discriminate|].
  destruct (pending_exception st); apply IH.
Qed.

Lemma uninterrupted_rounds victims steps :
  last_exception None steps = None ->
  flat_map (round victims) steps = repeat EvPoll (List.length steps).
Proof.
  induction steps as [| st steps IH]; [reflexivity|].
  cbn [last_exception flat_map List.length repeat].
  destruct (pending_exception st) as [e |] eqn:Hp; intros H.
  - exfalso. exact (last_exception_stays _ _ H).
  - rewrite (IH H). unfold round. rewrite Hp. reflexivity.
Qed.

Lemma aplay_error_kept cs : forall s,
  existsb is_aplay_exit cs = false ->
  aplay_error (fold_left dispatch cs s) = aplay_error s.
Proof.
  induction cs as [| c cs IH]; intros s H; [reflexivity|].
  cbn [existsb] in H. apply orb_false_iff in H. destruct H as [Hc Hcs].
  cbn [fold_left]. rewrite (IH _ Hcs).
  destruct c; [discriminate Hc | reflexivity | reflexivity].
Qed.

(** The callback of aplay stores what the exit reported, whatever was
    stored before, and the other callbacks leave it alone. *)
Lemma aplay_error_reported cs res s :
  aplay_reports cs res ->
  aplay_error (fold_left dispatch cs s) = res.
Proof.
  intros (before & after & -> & _ & Hafter).
  rewrite fold_left_app. cbn [fold_left].
  rewrite (aplay_error_kept _ _ Hafter). reflexivity.
Qed.

Lemma aplay_reports_dispatches step res :
  aplay_reports (dispatched step) res ->
  dispatches is_aplay_exit [step] = true.
Proof.
  intros (before & after & Hcs & _). unfold dispatches. cbn [existsb].
  rewrite Hcs, existsb_app. cbn. rewrite orb_true_r. reflexivity.
Qed.

(** X18.  A call of [play_file] that no exception interrupts, on a
    script that brings the exit of aplay in the round [step] and not
    before; [res] is what that exit reported: no error, or the message
    of the failed wait.  The process is never forced to exit and is
    released once, after the last round.  When aplay succeeded the call
    returns [None].  When it failed the call raises a [RuntimeError]
    whose text is what aplay wrote to its stderr, if the read of the
    pipe succeeded and found 1 to 4095 bytes without a NUL, and the
    message of the failed wait if the pipe was empty or the read
    failed. *)
Theorem play_file_without_interruption
    (path : string) (w : world) (pre : list poll_step) (step : poll_step)
    (post : list poll_step) (res : option string) (ok : bool) (data : list ascii) :
  env_spawn w Aplay = None ->
  env_polls w = pre ++ step :: post ->
  dispatches is_aplay_exit pre = false ->
  aplay_reports (dispatched step) res ->
  last_exception None (pre ++ [step]) = None ->
  env_stderr w Aplay = (ok, data) ->
  (List.length data < 4096)%nat ->
  Forall (fun c => c <> Ascii.zero) data ->
  exists w',
    ev3dev_Speaker_play_file (mp_obj_new_str path) w
      = (match res with
         | None => Normal mp_const_none
         | Some message =>
             Raised (RuntimeError
                       ("Playing file failed: "
                        ++ match data with
                           | _ :: _ => if ok then string_of_list_ascii data else message
                           | [] => message
                           end))
         end, w') /\
    trace w' = trace w
      ++ [EvSpawn Aplay ["aplay"; "-q"; path]%string; EvWaitCheck Aplay]
      ++ repeat EvPoll (S (List.length pre))
      ++ [EvUnref Aplay].
Proof.
  intros Hspawn Hpolls Hpre Hres Hlast Herr Hlen Hnul.
  pose proof (aplay_reports_dispatches _ _ Hres) as Hstep.
  destruct (play_file_loop path w pre step post Hpolls Hpre Hstep)
    as (w1 & Hrun & Hs & Ht & Hp & He).
  assert (Hmsg : aplay_error (self w1) = res).
  { rewrite Hs. unfold after_rounds. rewrite fold_left_app. cbn [fold_left].
    apply aplay_error_reported. exact Hres. }
  assert (Hok : aplay_result (self w1) = is_none (aplay_error (self w1))).
  { rewrite Hs. apply aplay_result_after_rounds.
    left. rewrite dispatches_app, Hstep, orb_true_r. reflexivity. }
  exists (log (EvUnref Aplay) w1). split.
  - rewrite (ev3dev_Speaker_play_file_started _ _ Hspawn).
    rewrite (bind_M_normal _ _ _ _ _ Hrun), Hlast.
    rewrite Hmsg in Hok.
    destruct res as [message |].
    + rewrite (play_file_finish_failed w1 message Hok Hmsg)
        by (rewrite He, Herr; exact Hlen).
      rewrite He, Herr. unfold diagnostic.
      rewrite (c_string_text _ Hnul). reflexivity.
    + apply play_file_finish_played. exact Hok.
  - cbn [trace log]. rewrite Ht.
    rewrite (uninterrupted_rounds _ _ Hlast), length_app, Nat.add_1_r.
    rewrite <- !app_assoc. reflexivity.
Qed.

(** Two runs of X18.  aplay fails with a line on its stderr, and the
    call raises with that line.  aplay succeeds in the second round, on
    a speaker that holds the error of an earlier call, and the call
    returns [None]. *)
Lemma play_file_without_interruption_witness :
  run (ev3dev_Speaker_play_file (mp_obj_new_str "hi.wav")) failing_world
    = (Raised (RuntimeError "Playing file failed: aplay: no sound card"),
       [EvSpawn Aplay ["aplay"; "-q"; "hi.wav"]%string; EvWaitCheck Aplay;
        EvPoll; EvPoll; EvUnref Aplay]) /\
  run (ev3dev_Speaker_play_file (mp_obj_new_str "hi.wav"))
      (with_polls [mk_poll [] None; mk_poll [AplayExited None] None]
         (with_self (set_aplay false false (Some "earlier failure"%string)
                       (self ready_world))
            ready_world))
    = (Normal mp_const_none,
       [EvSpawn Aplay ["aplay"; "-q"; "hi.wav"]%string; EvWaitCheck Aplay;
        EvPoll; EvPoll; EvUnref Aplay]).
Proof.
  split.
  - destruct (play_file_without_interruption "hi.wav" failing_world
                [mk_poll [EspeakExited (Some "Child process exited with code 2"%string);
                          SpliceFinished 0 None] None]
                (mk_poll [AplayExited (Some "Child process exited with code 1"%string)]
                   None)
                [] (Some "Child process exited with code 1"%string)
                true (list_ascii_of_string "aplay: no sound card")
                eq_refl eq_refl eq_refl
                (ex_intro _ [] (ex_intro _ [] (conj eq_refl (conj eq_refl eq_refl))))
                eq_refl eq_refl
                ltac:(cbn; lia) ltac:(repeat constructor; discriminate))
      as (w' & Hrun & Htr).
    unfold run. rewrite Hrun, Htr. reflexivity.
  - destruct (play_file_without_interruption "hi.wav"
                (with_polls [mk_poll [] None; mk_poll [AplayExited None] None]
                   (with_self (set_aplay false false (Some "earlier failure"%string)
                                 (self ready_world))
                      ready_world))
                [mk_poll [] None] (mk_poll [AplayExited None] None) [] None
                true []
                eq_refl eq_refl eq_refl
                (ex_intro _ [] (ex_intro _ [] (conj eq_refl (conj eq_refl eq_refl))))
                eq_refl eq_refl
                ltac:(cbn; lia) ltac:(constructor))
      as (w' & Hrun & Htr).
    unfold run. rewrite Hrun, Htr. reflexivity.
Defined.

(** X19.  As long as the environment has not brought the exit of aplay,
    [play_file] does not come back, and [say] does not come back before
    the exits of both processes and the end of the splice have all been
    dispatched: not with a result, and not with an exception either,
    however many rounds of the poll hook raise one. *)
Theorem calls_wait_for_their_notifications (path text : string) (w : world) :
  (env_spawn w Aplay = None ->
   dispatches is_aplay_exit (env_polls w) = false ->
   fst (ev3dev_Speaker_play_file (mp_obj_new_str path) w) = Waiting) /\
  (env_spawn w Espeak = None ->
   env_spawn w Aplay = None ->
   all_done (env_polls w) = false ->
   fst (ev3dev_Speaker_say (mp_obj_new_str text) w) = Waiting).
Proof.
  split.
  - apply play_file_waits_for_exit.
  - apply say_waits_for_all.
Qed.

(** A run of X19: three rounds, one of them with a [KeyboardInterrupt],
    and aplay has not ended. *)
Lemma calls_wait_for_their_notifications_witness :
  fst (ev3dev_Speaker_play_file (mp_obj_new_str "hi.wav")
         (with_polls (firstn 3 (env_polls interrupted_world)) interrupted_world))
    = Waiting /\
  fst (ev3dev_Speaker_say (mp_obj_new_str "hi")
         (with_polls (firstn 3 (env_polls interrupted_world)) interrupted_world))
    = Waiting.
Proof.
  destruct (calls_wait_for_their_notifications "hi.wav" "hi"
              (with_polls (firstn 3 (env_polls interrupted_world)) interrupted_world))
    as [Hfile Hsay].
  split; [exact (Hfile eq_refl eq_refl) | exact (Hsay eq_refl eq_refl eq_refl)].
Defined.

(** ** Runs of the statements about rejected notes *)

(** A run of X4: H is no note name. *)
Lemma rejects_missing_name_witness :
  parse_note "H4/4" 2000 = Raised (ValueError "Missing note name A-G or R").
Proof.
  apply rejects_missing_name.
  intros c Hin. cbn in Hin.
  repeat (destruct Hin as [<- | Hin]; [discriminate|]). contradiction.
Defined.

(** A run of X6: the octave 9 after C#. *)
Lemma rejects_bad_octave_witness :
  parse_note "C#9/4" 2000 = Raised (ValueError "Missing octave number 2-8").
Proof.
  apply (rejects_bad_octave "C#" 17.32 "9/4" 2000).
  - cbn. tauto.
  - intros H. discriminate H.
  - right. cbn. lia.
Defined.

(** A run of X7: a note without '/', and a rest without it. *)
Lemma rejects_missing_delimiter_witness :
  parse_note "C44" 2000 = Raised (ValueError "Missing '/'") /\
  parse_note "R4" 2000 = Raised (ValueError "Missing '/'").
Proof.
  apply (rejects_missing_delimiter "C" 16.35 4 "4" 2000).
  - cbn. tauto.
  - lia.
  - discriminate.
Defined.

(** A run of X8: a letter where the fraction should be. *)
Lemma rejects_bad_fraction_witness :
  parse_note "C4/x" 2000
    = Raised (ValueError "Missing fractional value 1, 2, 4, 8, etc.") /\
  parse_note "R/x" 2000
    = Raised (ValueError "Missing fractional value 1, 2, 4, 8, etc.").
Proof.
  apply (rejects_bad_fraction "C" 16.35 4 "x" 2000).
  - cbn. tauto.
  - lia.
  - right. cbn. lia.
Defined.

(** ** A melody with a bad note *)

Lemma ev3dev_Speaker_play_note_rejected item duration :
  rejected item duration ->
  exists e, forall w, ev3dev_Speaker_play_note item duration w = (Raised e, w).
Proof.
  unfold ev3dev_Speaker_play_note.
  destruct item as [| b | z | note | items |]; cbn;
    try (intros _; exists TypeError; reflexivity).
  intros [e He]. exists e. intros w. unfold lift. rewrite He. reflexivity.
Qed.

Lemma play_each_stops item duration after :
  rejected item duration ->
  forall before w,
    play_each (before ++ item :: after) duration w
      = play_each (before ++ [item]) duration w.
Proof.
  intros Hbad.
  destruct (ev3dev_Speaker_play_note_rejected _ _ Hbad) as [e He].
  induction before as [| x before IH]; intros w.
  - cbn -[ev3dev_Speaker_play_note]. rewrite He. reflexivity.
  - cbn -[ev3dev_Speaker_play_note].
    destruct (ev3dev_Speaker_play_note x duration w) as [[[] | e' | u |] w1];
      try reflexivity.
    apply IH.
Qed.

(** X20.  [play_notes] stops at the first item that is no note (not a
    str, or a str the parser raises on): the notes before it are played,
    nothing of it is, and the items after it have no effect at all, be
    they notes or not. *)
Theorem melody_stops_at_bad_note
    (before after : list mp_obj) (bad : mp_obj) (tempo : Z) (w : world) :
  rejected bad (4 * 60 * 1000 ÷ tempo) ->
  ev3dev_Speaker_play_notes (mp_obj_new_list (before ++ bad :: after)) tempo w
    = ev3dev_Speaker_play_notes (mp_obj_new_list (before ++ [bad])) tempo w.
Proof.
  intros Hbad. unfold ev3dev_Speaker_play_notes, lift, c_div.
  destruct (tempo =? 0); [reflexivity|].
  cbn -[play_each].
  rewrite (play_each_stops _ _ after Hbad). reflexivity.
Qed.

(** A run of X20: the note after the bad one is not played. *)
Lemma melody_stops_at_bad_note_witness :
  run (ev3dev_Speaker_play_notes
         (mp_obj_new_list
            [mp_obj_new_str "C4/4"; mp_obj_new_str "Fb4/4"; mp_obj_new_str "G4/4"])
         120) ready_world
    = (Raised (ValueError "'Fb' is not allowed"),
       [EvWrite 3 523 16; EvDelay 437; EvWrite 3 0 16; EvDelay 62; EvWrite 3 0 16]).
Proof.
  pose proof (melody_stops_at_bad_note [mp_obj_new_str "C4/4"] [mp_obj_new_str "G4/4"]
                (mp_obj_new_str "Fb4/4") 120 ready_world
                (ex_intro _ (ValueError "'Fb' is not allowed") eq_refl)) as H.
  cbn [app] in H. unfold run. rewrite H. vm_compute. reflexivity.
Defined.

(** ** The parser and the end of the string *)

Lemma no_nul_step note p :
  no_nul_before note p -> note_at note p <> 0 -> no_nul_before note (S p).
Proof.
  intros H Hp q Hq. destruct (Nat.eq_dec q p) as [-> | Hne]; [exact Hp|].
  apply H. lia.
Qed.

Lemma no_nul_start note : no_nul_before note 0.
Proof. intros q Hq. lia. Qed.

(** Each part of the parser reads on only after a byte that is no NUL,
    so two notes that are the same up to the first NUL are read alike. *)
Lemma note_name_same n1 n2 pos :
  same_up_to_nul n1 n2 ->
  no_nul_before n1 pos ->
  note_name n2 pos = note_name n1 pos /\
  match note_name n1 pos with
  | Normal (_, p') => no_nul_before n1 p'
  | _ => True
  end.
Proof.
  intros Hsame Hfresh.
  pose proof (Hsame pos Hfresh) as H0.
  assert (H1 : note_at n1 pos <> 0 ->
               no_nul_before n1 (S pos) /\ note_at n1 (S pos) = note_at n2 (S pos)).
  { intros Hc. pose proof (no_nul_step _ _ Hfresh Hc) as Hf. auto. }
  unfold note_name, switch_accidental. rewrite <- H0.
  cbn -[note_at].
  repeat (match goal with
          | |- context [note_at n1 pos =? ?k] =>
              destruct (Z.eqb_spec (note_at n1 pos) k) as [?Hc | ?Hc]
          end;
          cbn -[note_at];
          [destruct H1 as [Hf1 Hn]; [lia|]; rewrite <- ?Hn;
           repeat case_if; to_prop;
           (split; [reflexivity|]);
           try exact I; try exact Hf1;
           (apply no_nul_step; [exact Hf1 | lia])
          |]).
  split; [reflexivity | exact I].
Qed.

Lemma note_octave_same n1 n2 freq pos :
  same_up_to_nul n1 n2 ->
  no_nul_before n1 pos ->
  note_octave n2 freq pos = note_octave n1 freq pos /\
  match note_octave n1 freq pos with
  | Normal (_, p') => no_nul_before n1 p'
  | _ => True
  end.
Proof.
  intros Hsame Hfresh.
  pose proof (Hsame pos Hfresh) as H0.
  unfold note_octave. rewrite <- H0.
  destruct (negb (PrimFloat.eqb freq 0)); [| split; [reflexivity | exact Hfresh]].
  cbn -[note_at].
  case_if; cbn -[note_at]; (split; [reflexivity|]); [exact I|].
  to_prop. apply no_nul_step; [exact Hfresh | lia].
Qed.

Lemma note_delimiter_same n1 n2 pos :
  same_up_to_nul n1 n2 ->
  no_nul_before n1 pos ->
  note_delimiter n2 pos = note_delimiter n1 pos /\
  match note_delimiter n1 pos with
  | Normal p' => no_nul_before n1 p'
  | _ => True
  end.
Proof.
  intros Hsame Hfresh.
  pose proof (Hsame pos Hfresh) as H0.
  unfold note_delimiter. rewrite <- H0.
  cbn -[note_at].
  case_if; cbn -[note_at]; (split; [reflexivity|]); [exact I|].
  to_prop. apply no_nul_step; [exact Hfresh | lia].
Qed.

Lemma note_fraction_same n1 n2 pos :
  same_up_to_nul n1 n2 ->
  no_nul_before n1 pos ->
  note_fraction n2 pos = note_fraction n1 pos /\
  match note_fraction n1 pos with
  | Normal (_, p') => no_nul_before n1 p'
  | _ => True
  end.
Proof.
  intros Hsame Hfresh.
  pose proof (Hsame pos Hfresh) as H0.
  unfold note_fraction. rewrite <- H0.
  cbn -[note_at].
  case_if; cbn -[note_at]; [split; [reflexivity | exact I]|].
  to_prop.
  assert (Hf1 : no_nul_before n1 (S pos))
    by (apply no_nul_step; [exact Hfresh | lia]).
  rewrite <- (Hsame (S pos) Hf1).
  case_if; (split; [reflexivity|]); [exact Hf1|].
  to_prop. apply no_nul_step; [exact Hf1 | lia].
Qed.

Lemma note_decorations_same n1 n2 duration pos :
  same_up_to_nul n1 n2 ->
  no_nul_before n1 pos ->
  note_decorations n2 duration pos = note_decorations n1 duration pos.
Proof.
  intros Hsame Hfresh.
  pose proof (Hsame pos Hfresh) as H0.
  unfold note_decorations. rewrite <- H0.
  cbn -[note_at].
  case_if; cbn -[note_at].
  - to_prop.
    assert (Hf1 : no_nul_before n1 (S pos))
      by (apply no_nul_step; [exact Hfresh | lia]).
    rewrite <- (Hsame (S pos) Hf1). reflexivity.
  - rewrite <- H0. reflexivity.
Qed.

(** The parser reads a note byte by byte and, after a NUL, reads no
    further byte: two notes that are the same up to the first NUL of
    the first are read alike. *)
Lemma parse_note_same n1 n2 duration :
  same_up_to_nul n1 n2 ->
  parse_note n2 duration = parse_note n1 duration.
Proof.
  intros Hsame. unfold parse_note.
  destruct (note_name_same n1 n2 0 Hsame (no_nul_start n1)) as [-> Hf].
  destruct (note_name n1 0) as [[freq pos] | | |]; try reflexivity.
  cbn -[note_octave note_delimiter note_fraction note_decorations c_div].
  destruct (note_octave_same n1 n2 freq pos Hsame Hf) as [-> Hf'].
  destruct (note_octave n1 freq pos) as [[freq' pos'] | | |]; try reflexivity.
  cbn -[note_octave note_delimiter note_fraction note_decorations c_div].
  destruct (note_delimiter_same n1 n2 pos' Hsame Hf') as [-> Hf''].
  destruct (note_delimiter n1 pos') as [pos'' | | |]; try reflexivity.
  cbn -[note_octave note_delimiter note_fraction note_decorations c_div].
  destruct (note_fraction_same n1 n2 pos'' Hsame Hf'') as [-> Hf3].
  destruct (note_fraction n1 pos'') as [[fraction pos3] | | |]; try reflexivity.
  cbn -[note_octave note_delimiter note_fraction note_decorations c_div].
  destruct (c_div duration fraction) as [d | | |]; try reflexivity.
  cbn -[note_octave note_delimiter note_fraction note_decorations c_div].
  rewrite (note_decorations_same n1 n2 d pos3 Hsame Hf3). reflexivity.
Qed.

Lemma same_up_to_nul_app s rest :
  same_up_to_nul s (s ++ String Ascii.zero rest).
Proof.
  intros p Hp.
  destruct (Nat.lt_ge_cases p (String.length s)) as [Hlt | Hge].
  - revert p Hp Hlt. induction s as [| c s IH]; intros p Hp Hlt; [cbn in Hlt; lia|].
    destruct p as [| p]; [reflexivity|].
    cbn [append]. rewrite !note_at_S. apply IH; [| cbn in Hlt; lia].
    intros q Hq. rewrite <- (note_at_S c). apply Hp. lia.
  - assert (Hend : note_at s (String.length s) = 0).
    { clear. induction s as [| c s IH]; [reflexivity|].
      cbn [String.length]. rewrite note_at_S. exact IH. }
    destruct (Nat.eq_dec p (String.length s)) as [-> | Hne].
    + rewrite Hend. clear. induction s as [| c s IH]; [reflexivity|].
      cbn [String.length append]. rewrite note_at_S. exact IH.
    + exfalso. apply (Hp (String.length s)); [lia | exact Hend].
Qed.

(** X21.  [ev3dev_Speaker_play_note] reads its note as a C string: what
    follows the first NUL is never read.  A note and the same note with
    a NUL and any further bytes after it are parsed alike, for every
    duration. *)
Theorem parser_stops_at_nul (s rest : string) (duration : Z) :
  parse_note (s ++ String Ascii.zero rest) duration = parse_note s duration.
Proof. apply parse_note_same, same_up_to_nul_app. Qed.

(** ** A melody and the answers of the device *)

Lemma device_blind_lift {A : Type} (r : outcome A) : device_blind (lift r).
Proof.
  intros w w' Hd. exists r, w, w', [], [].
  rewrite !app_nil_r. repeat split; auto.
Qed.

Lemma device_blind_bind {A B : Type} (c : M A) (k : A -> M B) :
  device_blind c -> (forall a, device_blind (k a)) -> device_blind (bind c k).
Proof.
  intros Hc Hk w w' Hd.
  destruct (Hc w w' Hd) as (r & w1 & w1' & evs & evs' & H1 & H1' & Hd1 & Ht & Ht' & He).
  destruct r as [a | e | u |].
  1:{ destruct (Hk a w1 w1' Hd1)
        as (r2 & w2 & w2' & evs2 & evs2' & H2 & H2' & Hd2 & Ht2 & Ht2' & He2).
      exists r2, w2, w2', (evs ++ evs2), (evs' ++ evs2').
      cbn. rewrite H1, H1'.
      do 3 (split; [assumption|]).
      rewrite Ht2, Ht2', Ht, Ht', !delays_of_app, He, He2, <- !app_assoc.
      repeat split; reflexivity. }
  all: eexists _, w1, w1', evs, evs'; cbn; rewrite H1, H1';
    repeat split; assumption.
Qed.

Lemma device_blind_catch {A : Type} (body : M A) (handler : exc -> M A) :
  device_blind body -> (forall e, device_blind (handler e)) ->
  device_blind (catch body handler).
Proof.
  intros Hc Hk w w' Hd.
  destruct (Hc w w' Hd) as (r & w1 & w1' & evs & evs' & H1 & H1' & Hd1 & Ht & Ht' & He).
  destruct r as [a | e | u |].
  2:{ destruct (Hk e w1 w1' Hd1)
        as (r2 & w2 & w2' & evs2 & evs2' & H2 & H2' & Hd2 & Ht2 & Ht2' & He2).
      exists r2, w2, w2', (evs ++ evs2), (evs' ++ evs2').
      cbn. rewrite H1, H1'.
      do 3 (split; [assumption|]).
      rewrite Ht2, Ht2', Ht, Ht', !delays_of_app, He, He2, <- !app_assoc.
      repeat split; reflexivity. }
  all: eexists _, w1, w1', evs, evs'; cbn; rewrite H1, H1';
    repeat split; assumption.
Qed.

(** The answer of a write is the one thing that depends on the device;
    a call that drops it is blind. *)
Lemma device_blind_after_write {A : Type} (freq : Z) (k : M A) :
  device_blind k -> device_blind (set_beep_frequency freq ;; k).
Proof.
  intros Hk w w' Hd.
  destruct (set_beep_frequency_spec freq w)
    as (r & w1 & evs & H1 & Hw & Ht & _ & He & _).
  destruct (set_beep_frequency_spec freq w')
    as (r' & w1' & evs' & H1' & Hw' & Ht' & _ & He' & _).
  assert (Hd1 : env_delays w1 = env_delays w1').
  { rewrite (wrote_delays _ _ Hw), (wrote_delays _ _ Hw'). exact Hd. }
  destruct (Hk w1 w1' Hd1)
    as (r2 & w2 & w2' & evs2 & evs2' & H2 & H2' & Hd2 & Ht2 & Ht2' & He2).
  exists r2, w2, w2',
    ((evs ++ [EvWrite (beep_fd (self w)) freq r]) ++ evs2),
    ((evs' ++ [EvWrite (beep_fd (self w')) freq r']) ++ evs2').
  cbn. rewrite H1, H1'.
  do 3 (split; [assumption|]).
  rewrite Ht2, Ht2', Ht, Ht', !delays_of_app, He, He', He2, <- !app_assoc.
  repeat split; reflexivity.
Qed.

Lemma device_blind_delay (ms : Z) : device_blind (mp_hal_delay_ms ms).
Proof.
  intros w w' Hd. unfold same_run, mp_hal_delay_ms. rewrite <- Hd.
  destruct (env_delays w) as [| [e |] rest] eqn:Hw;
    eexists _, _, _, [EvDelay ms], [EvDelay ms];
    (do 2 (split; [reflexivity|])); cbn; repeat split; congruence.
Qed.

Lemma device_blind_play_note (item : mp_obj) (duration : Z) :
  device_blind (ev3dev_Speaker_play_note item duration).
Proof.
  unfold ev3dev_Speaker_play_note.
  apply device_blind_bind; [apply device_blind_lift|]. intros note.
  apply device_blind_bind; [apply device_blind_lift|]. intros [[freq d] release].
  apply device_blind_after_write.
  destruct release.
  - apply device_blind_bind; [apply device_blind_delay|]. intros _.
    apply device_blind_after_write, device_blind_delay.
  - apply device_blind_delay.
Qed.

Lemma device_blind_play_each (items : list mp_obj) (duration : Z) :
  device_blind (play_each items duration).
Proof.
  induction items as [| item rest IH].
  - apply (device_blind_lift (Normal tt)).
  - cbn [play_each]. apply device_blind_bind; [apply device_blind_play_note|].
    intros _. exact IH.
Qed.

(** X22.  [play_notes] drops the answer of every write to the sound
    device.  So its outcome and its delays do not depend on the device:
    from two worlds in which the delays are interrupted alike, be the
    device open in one and missing or failing in the other, the call
    ends with the same result or exception after the same delays. *)
Theorem melody_does_not_depend_on_the_device
    (notes : mp_obj) (tempo : Z) (w w' : world) :
  env_delays w = env_delays w' ->
  same_run (ev3dev_Speaker_play_notes notes tempo) w w'.
Proof.
  revert w w'. change (device_blind (ev3dev_Speaker_play_notes notes tempo)).
  unfold ev3dev_Speaker_play_notes.
  apply device_blind_bind; [apply device_blind_lift|]. intros duration.
  apply device_blind_bind.
  { destruct notes; apply (device_blind_lift _). }
  intros iterable.
  apply device_blind_bind; [| intros _; apply (device_blind_lift (Normal mp_const_none))].
  apply device_blind_catch.
  - apply device_blind_bind; [apply device_blind_play_each|]. intros _.
    apply device_blind_after_write. apply (device_blind_lift (Normal tt)).
  - intros e. apply device_blind_after_write. apply (device_blind_lift (Raised e)).
Qed.

(** A run of X22: the melody that plays on the open device goes the
    same way, to [None], on a speaker that has no device. *)
Lemma melody_does_not_depend_on_the_device_witness :
  fst (ev3dev_Speaker_play_notes
         (mp_obj_new_list [mp_obj_new_str "C4/4"; mp_obj_new_str "G4/4_"]) 120
         (with_self (set_beep_fd (-1) (self ready_world)) ready_world))
    = Normal mp_const_none.
Proof.
  destruct (melody_does_not_depend_on_the_device
              (mp_obj_new_list [mp_obj_new_str "C4/4"; mp_obj_new_str "G4/4_"]) 120
              ready_world
              (with_self (set_beep_fd (-1) (self ready_world)) ready_world)
              eq_refl)
    as (r & w1 & w1' & evs & evs' & H1 & H1' & _).
  rewrite H1'. cbn [fst].
  assert (H : fst (ev3dev_Speaker_play_notes
                     (mp_obj_new_list [mp_obj_new_str "C4/4"; mp_obj_new_str "G4/4_"])
                     120 ready_world) = Normal mp_const_none)
    by (vm_compute; reflexivity).
  rewrite H1 in H. exact H.
Defined.
